(** * OOUI file-selection widgets: a shallow embedding of
      [src/widgets/SelectFileInputWidget.js]

    The file holds two classes: [OO.ui.SelectFileInputWidget] (the
    form-compatible widget) and [OO.ui.SelectFileWidget] (the richer widget
    with drag-and-drop and thumbnails, a subclass of the former).  Methods
    become functions on an explicit widget record; calls into collaborators
    (the info field, the DOM element, the pending mixin, the file reader)
    are recorded, in order, in the widget's [log]. *)

From Stdlib Require Import String Ascii List ZArith Bool Lia Arith.
Import ListNotations.

Open Scope string_scope.

(** ** JavaScript strings *)

Module JS.

(** [s.length] *)
Definition length (s : string) : Z := Z.of_nat (String.length s).

(** [s.substr( start [, length] )], after ECMAScript B.2.3.1: a negative
    [start] counts from the end, the length is clamped to what is left. *)
Definition substr (s : string) (start : Z) (len : option Z) : string :=
  let size := length s in
  let intStart := if (start <? 0)%Z then Z.max (size + start) 0 else start in
  let resultLength :=
    match len with
    | None => (size - intStart)%Z
    | Some l => Z.min (Z.max l 0) (size - intStart)
    end in
  if (resultLength <=? 0)%Z then ""
  else substring (Z.to_nat intStart) (Z.to_nat resultLength) s.

(** [s.slice( 0, -1 )]: everything but the last character. *)
Definition slice_0_m1 (s : string) : string :=
  substring 0 (String.length s - 1) s.

(** [s.indexOf( pat )], [-1] when [pat] does not occur. *)
Definition indexOf (s pat : string) : Z :=
  match index 0 pat s with
  | Some n => Z.of_nat n
  | None => (-1)%Z
  end.

(** Truthiness of a string: only the empty string is falsy. *)
Definition truthy (s : string) : bool := negb (s =? "").

(** [s.split( sep ).pop()] for a one-character separator: what follows
    the last occurrence of [sep], the whole string when there is none. *)
Fixpoint split_pop (sep : ascii) (s : string) : string :=
  match s with
  | EmptyString => ""
  | String c r =>
      if (existsb (Ascii.eqb sep) (list_ascii_of_string r)) then split_pop sep r
      else if Ascii.eqb c sep then r else s
  end.

End JS.

(** ** Files

    A [File] of the File API.  JavaScript compares objects by reference
    ([===]); each file object carries the identity [file_ref] it was
    allocated with, and [same_value] compares two [File|null] values the way
    [===] does. *)

Record File := mkFile {
  file_ref : positive;
  file_name : string;
  file_type : string;
  file_size : Z
}.

(** [File|null] *)
Definition value := option File.

Definition same_value (a b : value) : bool :=
  match a, b with
  | None, None => true
  | Some x, Some y => Pos.eqb (file_ref x) (file_ref y)
  | _, _ => false
  end.

(** The first entry of a FileList: [OO.getProp( x, 'files', 0 ) || null]. *)
Definition first_file (files : list File) : value := hd_error files.

(** ** MIME filter (shared by both widgets) *)

(** The loop of [isAllowedType] over [this.accept]. *)
Fixpoint isAllowedType_loop (accept : list string) (mimeType : string) : bool :=
  match accept with
  | [] => false
  | mimeTest :: rest =>
      if mimeTest =? mimeType then true
      else if JS.substr mimeTest (-2) None =? "/*" then
        let mimeTest' := JS.substr mimeTest 0 (Some (JS.length mimeTest - 1)%Z) in
        if JS.substr mimeType 0 (Some (JS.length mimeTest')) =? mimeTest' then true
        else isAllowedType_loop rest mimeType
      else isAllowedType_loop rest mimeType
  end.

(** [OO.ui.SelectFileInputWidget.prototype.isAllowedType]; [accept] is
    [this.accept]: [None] for [null], [Some l] for an array. *)
Definition isAllowedType (accept : option (list string)) (mimeType : string) : bool :=
  match accept with
  | None => true
  | Some l =>
      if negb (JS.truthy mimeType) then true
      else isAllowedType_loop l mimeType
  end.

(** The rule as the specification words it, for one pattern [p]: the type
    equals the pattern, or the pattern ends in ["/*"] and the type starts
    with the pattern less its ["*"] (so up to and including the slash). *)
Definition matches_pattern (p mimeType : string) : Prop :=
  p = mimeType \/
  exists q, p = q ++ "/*" /\ exists rest, mimeType = (q ++ "/") ++ rest.

(** The beginning of a MIME type up to and including its first slash, if
    it has one. *)
Fixpoint through_slash (s : string) : option string :=
  match s with
  | EmptyString => None
  | String c r =>
      if Ascii.eqb c "/" then Some (String c "")
      else option_map (String c) (through_slash r)
  end.

Fixpoint no_slash (s : string) : bool :=
  match s with
  | EmptyString => true
  | String c r => negb (Ascii.eqb c "/") && no_slash r
  end.

(** ** The form-compatible widget, [OO.ui.SelectFileInputWidget] *)

Module SelectFileInputWidget.

(** What a caller may hand to [setValue]: [undefined], [null] or a
    string. *)
Inductive arg :=
| Undefined
| Null
| Str (s : string).

Inductive effect :=
| EmitChange (v : string).     (* this.emit( 'change', v ) is entered *)

Record widget := mkWidget {
  value : string;                  (* this.value, the stored string value *)
  currentFile : option File;       (* this.currentFile *)
  accept : option (list string);   (* this.accept *)
  log : list effect
}.

Definition set_value (v : string) (w : widget) : widget :=
  mkWidget v (currentFile w) (accept w) (log w).
Definition set_currentFile (f : option File) (w : widget) : widget :=
  mkWidget (value w) f (accept w) (log w).
Definition say (e : effect) (w : widget) : widget :=
  mkWidget (value w) (currentFile w) (accept w) (log w ++ [e]).

(** [onFileSelected]; [files] is [e.target.files]. *)
Definition onFileSelected (files : list File) (w : widget) : widget :=
  let file := first_file files in
  let file :=
    match file with
    | Some f => if negb (isAllowedType (accept w) (file_type f)) then None else file
    | None => None
    end in
  set_currentFile file w.

Section Methods.

(** The toolkit classes [OO.ui.InputWidget] (the parent) and
    [OO.ui.SearchInputWidget] (the info field) are not part of this file.
    The methods below are given for any behaviour of the three methods of
    theirs that this class calls: the parent [setValue], the inherited
    [getValue] (which may itself change the widget: it reads the native
    input again and calls [setValue] when the two differ), and [setValue]
    of the info field together with all that its [change] event sets off
    (the constructor connects [onInfoChange] to it, which calls
    [setValue( null )] for an emptied field). *)
Variable InputWidget_setValue : string -> widget -> widget.
Variable InputWidget_getValue : widget -> string * widget.
Variable info_setValue : string -> widget -> widget.

(** [getFilename]: the file's name, else what [this.getValue()] answers
    with a leading fake path stripped. *)
Definition getFilename (w : widget) : string * widget :=
  match currentFile w with
  | Some f => (file_name f, w)
  | None =>
      let (v, w') := InputWidget_getValue w in
      (JS.split_pop "\"%char v, w')
  end.

(** [updateUI] *)
Definition updateUI (w : widget) : widget :=
  let (name, w') := getFilename w in
  info_setValue name w'.

(** [this.emit( 'change', v )]: the constructor connects [updateUI] to the
    widget's own [change] event. *)
Definition emit_change (v : string) (w : widget) : widget :=
  updateUI (say (EmitChange v) w).

(** The [else] branch of [setValue]: a falsy, defined value. *)
Definition clear (w : widget) : widget :=
  InputWidget_setValue "" (set_currentFile None w).

(** [setValue] *)
Definition setValue (v : arg) (w : widget) : widget :=
  match v with
  | Undefined => w
  | Null => clear w
  | Str s =>
      if JS.truthy s then
        if negb (value w =? s) then emit_change s (set_value s w) else w
      else clear w
  end.

(** [onInfoChange] *)
Definition onInfoChange (v : string) (w : widget) : widget :=
  if v =? "" then setValue Null w else w.

End Methods.

End SelectFileInputWidget.

(** ** The richer widget, [OO.ui.SelectFileWidget] *)

Module SelectFileWidget.

(** A listener the application connected to the widget's [change]
    event. *)
Definition subscriber := nat.

(** Calls into collaborators and observable steps, in the order they
    happen. *)
Inductive effect :=
| EmitChange (v : value)                (* this.emit( 'change', v ) is entered *)
| Delivered (s : subscriber) (v : value) (* the listener [s] is called with [v] *)
| InfoSetValue (s : string)             (* this.info.setValue( s ) *)
| InfoSetDisabled (d : bool)            (* this.info.setDisabled( d ) *)
| SelectButtonSetDisabled (d : bool)    (* this.selectButton.setDisabled( d ) *)
| ElementAddClass (c : string)
| ElementRemoveClass (c : string)
| ElementOffClick                       (* this.$element.off( 'click' ) *)
| ElementOnClick                        (* click: onDropTargetClick *)
| PushPending                           (* this.pushPending() *)
| PopPending                            (* this.popPending() *)
| ReadAsDataURL (id : nat) (f : File)   (* reader.readAsDataURL( file ) *)
| ImgSetSrc (id : nat) (src : string)   (* img.src = event.target.result *)
| ThumbnailBackground (css : string)    (* $thumbnail.css( 'background-image', css ) *)
| ThumbnailAppendIcon (icon : string)   (* $thumbnail.append( IconWidget ) *)
| ThumbnailEmpty                        (* $thumbnail.empty() *)
| InputClear.                           (* this.$input[ 0 ].value = '' *)

(** A deferred made by [loadAndGetImageUrl] that has not settled yet. *)
Inductive task :=
| AwaitingRead (f : File)        (* the reader has not fired [onload] *)
| AwaitingDecode (url : string). (* the image has not fired [load] *)

(** What [loadAndGetImageUrl] hands back: a promise already rejected, or
    one that the task [id] will settle. *)
Inductive promise :=
| Rejected
| Unsettled (id : nat).

Record widget := mkWidget {
  isSupported : bool;             (* static.isSupported(), cached *)
  selectButton : bool;            (* this.selectButton has been constructed *)
  accept : option (list string);  (* this.accept *)
  showDropTarget : bool;          (* this.showDropTarget *)
  thumbnailSizeLimit : Z;         (* this.thumbnailSizeLimit, in MiB *)
  disabled : bool;                (* this.disabled *)
  currentFile : value;            (* this.currentFile *)
  inputClearing : bool;           (* this.inputClearing *)
  bindings : list subscriber;     (* application listeners of 'change', as connected *)
  tasks : list (nat * task);      (* unsettled deferreds *)
  nextTask : nat;
  log : list effect;
  infoValue : string              (* the value the info field holds *)
}.

Definition set_disabled (d : bool) (w : widget) : widget :=
  mkWidget (isSupported w) (selectButton w) (accept w) (showDropTarget w)
    (thumbnailSizeLimit w) d (currentFile w) (inputClearing w) (bindings w)
    (tasks w) (nextTask w) (log w) (infoValue w).
Definition set_currentFile (f : value) (w : widget) : widget :=
  mkWidget (isSupported w) (selectButton w) (accept w) (showDropTarget w)
    (thumbnailSizeLimit w) (disabled w) f (inputClearing w) (bindings w)
    (tasks w) (nextTask w) (log w) (infoValue w).
Definition set_inputClearing (b : bool) (w : widget) : widget :=
  mkWidget (isSupported w) (selectButton w) (accept w) (showDropTarget w)
    (thumbnailSizeLimit w) (disabled w) (currentFile w) b (bindings w)
    (tasks w) (nextTask w) (log w) (infoValue w).
Definition set_bindings (b : list subscriber) (w : widget) : widget :=
  mkWidget (isSupported w) (selectButton w) (accept w) (showDropTarget w)
    (thumbnailSizeLimit w) (disabled w) (currentFile w) (inputClearing w) b
    (tasks w) (nextTask w) (log w) (infoValue w).
Definition set_tasks (t : list (nat * task)) (n : nat) (w : widget) : widget :=
  mkWidget (isSupported w) (selectButton w) (accept w) (showDropTarget w)
    (thumbnailSizeLimit w) (disabled w) (currentFile w) (inputClearing w)
    (bindings w) t n (log w) (infoValue w).
Definition set_log (l : list effect) (w : widget) : widget :=
  mkWidget (isSupported w) (selectButton w) (accept w) (showDropTarget w)
    (thumbnailSizeLimit w) (disabled w) (currentFile w) (inputClearing w)
    (bindings w) (tasks w) (nextTask w) l (infoValue w).
Definition set_infoValue (s : string) (w : widget) : widget :=
  mkWidget (isSupported w) (selectButton w) (accept w) (showDropTarget w)
    (thumbnailSizeLimit w) (disabled w) (currentFile w) (inputClearing w)
    (bindings w) (tasks w) (nextTask w) (log w) s.

(** *** Methods run in a state monad over the widget *)

Definition M (A : Type) : Type := widget -> A * widget.

Definition ret {A} (a : A) : M A := fun w => (a, w).
Definition bind {A B} (c : M A) (k : A -> M B) : M B :=
  fun w => let (a, w') := c w in k a w'.
Definition gets {A} (field : widget -> A) : M A := fun w => (field w, w).
Definition modify (f : widget -> widget) : M unit := fun w => (tt, f w).
Definition exec {A} (c : M A) (w : widget) : widget := snd (c w).

Declare Scope widget_scope.
Delimit Scope widget_scope with widget.
Notation "x <- c1 ;; c2" := (bind c1 (fun x => c2))
  (at level 61, c1 at next level, right associativity) : widget_scope.
Notation "c1 ;; c2" := (bind c1 (fun _ => c2))
  (at level 61, right associativity) : widget_scope.
Local Open Scope widget_scope.

Definition say (e : effect) : M unit :=
  modify (fun w => set_log (log w ++ [e]) w).

Definition when (b : bool) (c : M unit) : M unit :=
  if b then c else ret tt.

Fixpoint forEach {A} (l : list A) (body : A -> M unit) : M unit :=
  match l with
  | [] => ret tt
  | x :: rest => body x ;; forEach rest body
  end.

(** *** Unsettled deferreds *)

Fixpoint find_task (id : nat) (l : list (nat * task)) : option task :=
  match l with
  | [] => None
  | (i, t) :: rest => if Nat.eqb i id then Some t else find_task id rest
  end.

Fixpoint remove_task (id : nat) (l : list (nat * task)) : list (nat * task) :=
  match l with
  | [] => []
  | (i, t) :: rest => if Nat.eqb i id then rest else (i, t) :: remove_task id rest
  end.

Fixpoint replace_task (id : nat) (t' : task) (l : list (nat * task)) : list (nat * task) :=
  match l with
  | [] => []
  | (i, t) :: rest =>
      if Nat.eqb i id then (i, t') :: rest else (i, t) :: replace_task id t' rest
  end.

(** *** Disabling *)

(** Modelled from the spec: [OO.ui.Widget.prototype.setDisabled] lives in
    the toolkit's [Widget] class, which is not part of this file (nor is
    [InputWidget], through which the call passes and which disables the
    native input).  The disabled state is a flag of the widget, which
    [setDisabled] stores. *)
Definition Widget_setDisabled (d : bool) : M unit := modify (set_disabled d).

(** Modelled from the spec: [OO.ui.Widget.prototype.isDisabled], of the
    same missing class, reads the flag. *)
Definition isDisabled : M bool := gets disabled.

(** [OO.ui.SelectFileInputWidget.prototype.setDisabled], inherited: the
    parent method, then the two sub-widgets. *)
Definition SelectFileInputWidget_setDisabled (d : bool) : M unit :=
  Widget_setDisabled d ;;
  say (SelectButtonSetDisabled d) ;;
  say (InfoSetDisabled d).

(** [setDisabled] *)
Definition setDisabled (d : bool) : M unit :=
  supported <- gets isSupported ;;
  let d := d || negb supported in
  SelectFileInputWidget_setDisabled d.

(** *** Value and preview *)

(** [getValue] *)
Definition getValue : M value := gets currentFile.

(** [getFilename] *)
Definition getFilename : M string :=
  file <- gets currentFile ;;
  ret (match file with Some f => file_name f | None => "" end).

(** [reader.readAsDataURL( file )] under a fresh deferred. *)
Definition readAsDataURL (f : File) : M nat :=
  id <- gets nextTask ;;
  modify (fun w => set_tasks (tasks w ++ [(id, AwaitingRead f)]) (S id) w) ;;
  say (ReadAsDataURL id f) ;;
  ret id.

(** The size and type test of [loadAndGetImageUrl]. *)
Definition qualifies (limit : Z) (f : File) : bool :=
  (JS.indexOf (file_type f) "image/" =? 0)%Z &&
  (file_size f <? limit * 1024 * 1024)%Z.

(** [loadAndGetImageUrl] *)
Definition loadAndGetImageUrl : M promise :=
  file <- gets currentFile ;;
  limit <- gets thumbnailSizeLimit ;;
  match file with
  | Some f =>
      if qualifies limit f then
        id <- readAsDataURL f ;;
        ret (Unsettled id)
      else ret Rejected
  | None => ret Rejected
  end.

(** The callbacks [updateUI] attaches to the promise: [done] then
    [always] when it resolves, [fail] then [always] when it is rejected. *)
Definition on_resolved (url : string) : M unit :=
  say (ThumbnailBackground ("url( " ++ url ++ " )")) ;;
  say PopPending.

Definition on_rejected : M unit :=
  say (ThumbnailAppendIcon "attachment") ;;
  say PopPending.

(** What [updateUI] does after the call of the parent method.  jQuery runs
    a callback attached to a settled deferred at once, so a promise that
    comes back rejected runs [fail] and [always] here; otherwise they wait
    for the task. *)
Definition refresh_preview : M unit :=
  file <- gets currentFile ;;
  dropTarget <- gets showDropTarget ;;
  match file with
  | Some _ =>
      say (ElementRemoveClass "oo-ui-selectFileInputWidget-empty") ;;
      when dropTarget (
        say PushPending ;;
        p <- loadAndGetImageUrl ;;
        match p with
        | Rejected => on_rejected
        | Unsettled _ => ret tt
        end ;;
        say ElementOffClick)
  | None =>
      when dropTarget (
        say ElementOffClick ;;
        say ElementOnClick ;;
        say ThumbnailEmpty ;;
        say (ThumbnailBackground "")) ;;
      say (ElementAddClass "oo-ui-selectFileInputWidget-empty")
  end.

(** [setValue], [emit], [updateUI] and the info field call each other in a
    circle: [setValue] emits [change], which runs [updateUI], which gives
    the info field the file name; when that changes the field, the field
    emits its own [change], which the constructor connects to
    [onInfoChange], and [onInfoChange] calls [setValue( null )] when the
    field has become empty.  The methods are first given for any
    [setValue] that [onInfoChange] may find there. *)
Section Reentry.

Variable inner_setValue : value -> M unit.

(** Modelled from the spec: [this.info.setValue( s )].  The info field is
    one of the text-field sub-widgets the toolkit provides (a
    [SearchInputWidget]), whose class is not part of this file.  Its
    [setValue], inherited from [InputWidget], stores the value and, when
    that changed it, emits [change] with it; the listener the constructor
    connected is [onInfoChange], whose body is the last line. *)
Definition info_setValue (s : string) : M unit :=
  say (InfoSetValue s) ;;
  held <- gets infoValue ;;
  if held =? s then ret tt
  else
    modify (set_infoValue s) ;;
    if s =? "" then inner_setValue None else ret tt.

(** [OO.ui.SelectFileInputWidget.prototype.updateUI], the parent method
    (with the subclass's [getFilename]). *)
Definition SelectFileInputWidget_updateUI_with : M unit :=
  name <- getFilename ;;
  info_setValue name.

(** [updateUI] *)
Definition updateUI_with : M unit :=
  button <- gets selectButton ;;
  supported <- gets isSupported ;;
  if negb button || negb supported then ret tt
  else
    SelectFileInputWidget_updateUI_with ;;
    refresh_preview.

(** [this.emit( 'change', v )].  [OO.EventEmitter] calls the listeners of
    an event one after the other in the order they were connected.  The
    constructor connects the widget's own [updateUI] first; the listeners
    of the application follow. *)
Definition emit_change_with (v : value) : M unit :=
  say (EmitChange v) ;;
  listeners <- gets bindings ;;
  updateUI_with ;;
  forEach listeners (fun s => say (Delivered s v)).

(** [setValue] *)
Definition setValue_with (file : value) : M unit :=
  current <- gets currentFile ;;
  if negb (same_value current file) then
    modify (set_currentFile file) ;;
    emit_change_with file
  else ret tt.

End Reentry.

(** The circle closes after one turn.  [onInfoChange] calls
    [setValue( null )] only from an info field that has just become empty;
    the [updateUI] of that call gives the field [''] again, which changes
    nothing, so no [change] of the field follows and [setValue] is not
    entered a third time.  [setValue_nested] is the [setValue] entered from
    [onInfoChange]; [reentry_is_shallow] below proves that whatever is put
    in the place of a third entry, the methods do the same, and
    [setValue_unfolds] that [setValue] is the method that calls itself. *)
Definition setValue_nested : value -> M unit :=
  setValue_with (fun _ => ret tt).

Definition SelectFileInputWidget_updateUI : M unit :=
  SelectFileInputWidget_updateUI_with setValue_nested.

Definition updateUI : M unit := updateUI_with setValue_nested.

Definition emit_change (v : value) : M unit := emit_change_with setValue_nested v.

Definition setValue (file : value) : M unit := setValue_with setValue_nested file.

(** *** Event handlers *)

(** The file a handler keeps from a FileList: the first one, unless its
    type is not allowed ([file = null]). *)
Definition allowed_file (accept : option (list string)) (files : list File) : value :=
  match first_file files with
  | Some f => if negb (isAllowedType accept (file_type f)) then None else Some f
  | None => None
  end.

(** [onFileSelected]; [files] is [e.target.files]. *)
Definition onFileSelected (files : list File) : M unit :=
  clearing <- gets inputClearing ;;
  if clearing then ret tt
  else
    types <- gets accept ;;
    let file := allowed_file types files in
    modify (set_inputClearing true) ;;
    say InputClear ;;
    modify (set_inputClearing false) ;;
    setValue file.

(** [onDrop]; [files] is [e.originalEvent.dataTransfer.files].  The
    handler always returns [false]. *)
Definition onDrop (files : list File) : M bool :=
  say (ElementRemoveClass "oo-ui-selectFileWidget-canDrop") ;;
  off <- isDisabled ;;
  if off then ret false
  else
    types <- gets accept ;;
    let file := allowed_file types files in
    match file with
    | Some _ => setValue file
    | None => ret tt
    end ;;
    ret false.

(** [onDragLeave] *)
Definition onDragLeave : M unit :=
  say (ElementRemoveClass "oo-ui-selectFileWidget-canDrop").

(** [onInfoChange], inherited. *)
Definition onInfoChange (v : string) : M unit :=
  if v =? "" then setValue None else ret tt.

(** The user changes the info field, which then holds [v] and emits
    [change] (the clear button of the field gives ['']). *)
Definition info_changed (v : string) : M unit :=
  modify (set_infoValue v) ;;
  onInfoChange v.

(** [widget.on( 'change', listener )], called by the application. *)
Definition connect (s : subscriber) : M unit :=
  modify (fun w => set_bindings (bindings w ++ [s]) w).

(** [reader.onload]: the bytes are read; an image is made to probe them. *)
Definition reader_onload (id : nat) (result : string) : M unit :=
  pending <- gets tasks ;;
  match find_task id pending with
  | Some (AwaitingRead _) =>
      modify (fun w =>
        set_tasks (replace_task id (AwaitingDecode result) (tasks w)) (nextTask w) w) ;;
      say (ImgSetSrc id result)
  | _ => ret tt
  end.

(** The test of the [load] listener: [img.naturalWidth === 0 ||
    img.naturalHeight === 0 || img.complete === false]. *)
Definition bad_decode (naturalWidth naturalHeight : Z) (complete : bool) : bool :=
  (naturalWidth =? 0)%Z || (naturalHeight =? 0)%Z || negb complete.

(** The [load] listener of the probe image: the deferred settles. *)
Definition img_onload (id : nat) (naturalWidth naturalHeight : Z) (complete : bool)
  : M unit :=
  pending <- gets tasks ;;
  match find_task id pending with
  | Some (AwaitingDecode url) =>
      modify (fun w => set_tasks (remove_task id (tasks w)) (nextTask w) w) ;;
      if bad_decode naturalWidth naturalHeight complete
      then on_rejected
      else on_resolved url
  | _ => ret tt
  end.

(** *** Construction *)

Record config := mkConfig {
  cfg_accept : option (list string);  (* [None] unless an array is given *)
  cfg_disabled : bool;
  cfg_notsupported : string;
  cfg_droppable : bool;
  cfg_buttonOnly : bool;
  cfg_showDropTarget : bool;
  cfg_thumbnailSizeLimit : Z
}.

(** The defaults of the constructor. *)
Definition default_config : config :=
  mkConfig None false "ooui-selectfile-not-supported" true false false 20.

(** The object before any constructor has run, on a platform where
    [isSupported()] answers [supported]; unset fields read as falsy. *)
Definition blank (supported : bool) : widget :=
  mkWidget supported false None false 0 false None false [] [] 0 [] "".

Definition set_selectButton (b : bool) (w : widget) : widget :=
  mkWidget (isSupported w) b (accept w) (showDropTarget w)
    (thumbnailSizeLimit w) (disabled w) (currentFile w) (inputClearing w)
    (bindings w) (tasks w) (nextTask w) (log w) (infoValue w).
Definition set_accept (a : option (list string)) (w : widget) : widget :=
  mkWidget (isSupported w) (selectButton w) a (showDropTarget w)
    (thumbnailSizeLimit w) (disabled w) (currentFile w) (inputClearing w)
    (bindings w) (tasks w) (nextTask w) (log w) (infoValue w).
Definition set_preview (target : bool) (limit : Z) (w : widget) : widget :=
  mkWidget (isSupported w) (selectButton w) (accept w) target
    limit (disabled w) (currentFile w) (inputClearing w)
    (bindings w) (tasks w) (nextTask w) (log w) (infoValue w).

(** The parent constructor, [OoUiSelectFileInputWidget].  The buttons are
    made first because the toolkit's [Widget] constructor, further up,
    calls [this.setDisabled( config.disabled )]. *)
Definition SelectFileInputWidget_constructor (cfg : config) (off : bool) : M unit :=
  modify (set_selectButton true) ;;
  setDisabled off ;;
  modify (set_currentFile None) ;;
  modify (set_accept (cfg_accept cfg)) ;;
  updateUI.

(** The constructor, [OoUiSelectFileWidget]. *)
Definition constructor (cfg : config) : M unit :=
  supported <- gets isSupported ;;
  let off := if negb supported then true else cfg_disabled cfg in
  SelectFileInputWidget_constructor cfg off ;;
  when (negb supported) (info_setValue setValue (cfg_notsupported cfg)) ;;
  let droppable := cfg_droppable cfg && supported in
  modify (set_preview (droppable && cfg_showDropTarget cfg) (cfg_thumbnailSizeLimit cfg)) ;;
  updateUI.

Definition construct (supported : bool) (cfg : config) : widget :=
  exec (constructor cfg) (blank supported).

(** *** Runs: what can happen to a constructed widget *)

Inductive action :=
| SetValue (file : value)
| SetDisabled (d : bool)
| FileSelected (files : list File)
| Drop (files : list File)
| DragLeave
| InfoChange (v : string)
| Connect (s : subscriber)
| ReaderOnload (id : nat) (result : string)
| ImgOnload (id : nat) (naturalWidth naturalHeight : Z) (complete : bool).

Definition step (a : action) : M unit :=
  match a with
  | SetValue file => setValue file
  | SetDisabled d => setDisabled d
  | FileSelected files => onFileSelected files
  | Drop files => _ <- onDrop files ;; ret tt
  | DragLeave => onDragLeave
  | InfoChange v => info_changed v
  | Connect s => connect s
  | ReaderOnload id result => reader_onload id result
  | ImgOnload id w h c => img_onload id w h c
  end.

Definition run (l : list action) : M unit := forEach l step.

(** *** Reading the log *)

Definition is_change (e : effect) : bool :=
  match e with EmitChange _ => true | _ => false end.
Definition is_delivery (e : effect) : bool :=
  match e with Delivered _ _ => true | _ => false end.
Definition is_push (e : effect) : bool :=
  match e with PushPending => true | _ => false end.
Definition is_pop (e : effect) : bool :=
  match e with PopPending => true | _ => false end.

Definition count (p : effect -> bool) (l : list effect) : nat :=
  List.length (filter p l).

(** Position of the first entry of the log that satisfies [p]. *)
Fixpoint position (p : effect -> bool) (l : list effect) : option nat :=
  match l with
  | [] => None
  | e :: rest => if p e then Some 0 else option_map S (position p rest)
  end.

(** The first [a] of the log comes before its first [b]. *)
Definition precedes (a b : effect -> bool) (l : list effect) : bool :=
  match position a l, position b l with
  | Some i, Some j => Nat.ltb i j
  | _, _ => false
  end.

(** What was logged between [w] and a later [w']. *)
Definition since (w w' : widget) : list effect :=
  skipn (List.length (log w)) (log w').

(** Between [w] and [w'] the selection did not change and no change was
    emitted. *)
Definition unchanged_and_silent (w w' : widget) : Prop :=
  currentFile w' = currentFile w /\
  count is_change (log w') = count is_change (log w).

(** Between [w] and [w'] a listener of the application was called before
    the preview was started ([pushPending] opens every attempt). *)
Definition listeners_hear_before_preview (w w' : widget) : Prop :=
  precedes is_delivery is_push (since w w') = true.

(** What [onDrop] does when it selects nothing. *)
Definition drop_ignored (w : widget) : widget :=
  set_log (log w ++ [ElementRemoveClass "oo-ui-selectFileWidget-canDrop"]) w.

(** *** Sample inputs *)

Definition photo : File := mkFile 1 "photo.jpg" "image/jpeg" 2048.
Definition notes : File := mkFile 2 "notes.txt" "text/plain" 120.

(** A file without a name, as [new File( [], '' )] makes one. *)
Definition nameless : File := mkFile 9 "" "image/png" 512.

(** [{ accept: [ 'image/*' ], disabled: true }] *)
Definition images_only_disabled : config :=
  mkConfig (Some ["image/*"]) true "ooui-selectfile-not-supported" true false false 20.

(** [{ accept: [ 'image/*' ], showDropTarget: true }] *)
Definition images_only : config :=
  mkConfig (Some ["image/*"]) false "ooui-selectfile-not-supported" true false true 20.

(** The platform lacks file selection and the widget is disabled: the state
    in which an unsupported widget lives. *)
Definition forced_off (w : widget) : Prop :=
  isSupported w = false /\ disabled w = true.

(** The widget can show previews: it is constructed, the platform selects
    files, and there is a drop target with its thumbnail. *)
Definition shows_preview (w : widget) : Prop :=
  selectButton w = true /\ isSupported w = true /\ showDropTarget w = true.

(** What settling a deferred logs: the fallback icon or the thumbnail, then
    the end of the busy state. *)
Definition settled (failed : bool) (url : string) : list effect :=
  [if failed then ThumbnailAppendIcon "attachment"
   else ThumbnailBackground ("url( " ++ url ++ " )");
   PopPending].

(** What [updateUI] logs for a selected file [f] on a widget that shows
    previews, [attempt] being what the preview attempt itself logs. *)
Definition refreshed (f : File) (attempt : list effect) : list effect :=
  [InfoSetValue (file_name f);
   ElementRemoveClass "oo-ui-selectFileInputWidget-empty";
   PushPending] ++ attempt ++ [ElementOffClick].

(** The identifiers of the unsettled deferreds are distinct and were all
    handed out already. *)
Definition fresh_ids (w : widget) : Prop :=
  NoDup (map fst (tasks w)) /\
  (forall id, In id (map fst (tasks w)) -> id < nextTask w).

(** Every preview attempt that was started has either been cleared or is
    still unsettled. *)
Definition balanced (w : widget) : Prop :=
  count is_push (log w) = count is_pop (log w) + List.length (tasks w).

(** The computation [c] keeps the property [I] of the widget. *)
Definition preserves (I : widget -> Prop) {A} (c : M A) : Prop :=
  forall w, I w -> I (snd (c w)).

(** *** Handlers of the keyboard, the click and the drag *)

(** Calls on collaborators for which the log has no entry.  A handler that
    makes them hands them back, in order, with what it returns ([None] for
    [undefined]). *)
Inductive call :=
| InputTriggerClick     (* this.$input.trigger( 'click' ) *)
| SelectButtonKeyUp.    (* this.selectButton.onDocumentKeyUp( e ) *)

Section Keys.

(** [OO.ui.Keys.SPACE] and [OO.ui.Keys.ENTER], constants of the toolkit
    that are not part of this file. *)
Variables SPACE ENTER : Z.

(** [onKeyPress], inherited from the form-compatible widget; [input] says
    whether [this.$input] is set, [which] is [e.which]. *)
Definition onKeyPress (input : bool) (which : Z) : M (list call * option bool) :=
  off <- isDisabled ;;
  if negb off && input && ((which =? SPACE)%Z || (which =? ENTER)%Z)
  then ret ([InputTriggerClick; SelectButtonKeyUp], Some false)
  else ret ([], None).

End Keys.

(** [onDropTargetClick] *)
Definition onDropTargetClick (input : bool) : M (list call * option bool) :=
  off <- isDisabled ;;
  if negb off && input
  then ret ([InputTriggerClick], Some false)
  else ret ([], None).

(** [e.originalEvent.dataTransfer] of a drag event: the types of its items,
    its files, and its [types]. *)
Record DataTransfer := mkDataTransfer {
  dt_items : list string;
  dt_files : list File;
  dt_types : list string
}.

(** The type of [OO.getProp( dt, 'items', 0 ) || OO.getProp( dt, 'files', 0 )],
    when there is either. *)
Definition itemOrFile (dt : DataTransfer) : option string :=
  match dt_items dt with
  | t :: _ => Some t
  | [] => option_map file_type (first_file (dt_files dt))
  end.

(** [onDragEnterOrOver].  The result is what the handler assigns to
    [dt.dropEffect], if it assigns; the handler itself always returns
    [false]. *)
Definition onDragEnterOrOver (dt : DataTransfer) : M (option string) :=
  off <- isDisabled ;;
  if off then
    say (ElementRemoveClass "oo-ui-selectFileWidget-canDrop") ;;
    ret (Some "none")
  else
    types <- gets accept ;;
    let droppableFile :=
      match itemOrFile dt with
      | Some t => isAllowedType types t
      | None => existsb (String.eqb "Files") (dt_types dt)
      end in
    say (if droppableFile
         then ElementAddClass "oo-ui-selectFileWidget-canDrop"
         else ElementRemoveClass "oo-ui-selectFileWidget-canDrop") ;;
    ret (if droppableFile then None else Some "none").

(** *** More readings of the log and of the widget *)

(** The selected file, if any, passes the filter of the widget. *)
Definition selection_allowed (w : widget) : Prop :=
  match currentFile w with
  | Some f => isAllowedType (accept w) (file_type f) = true
  | None => True
  end.

(** Everything but a [setValue] with a file, which only the application
    calls. *)
Definition from_user (a : action) : bool :=
  match a with
  | SetValue (Some _) => false
  | _ => true
  end.

(** The value of the latest entry of the log that [pick] reads. *)
Definition latest {A} (pick : effect -> option A) (l : list effect) : option A :=
  fold_left (fun acc e => match pick e with Some a => Some a | None => acc end) l None.

Definition told_button (e : effect) : option bool :=
  match e with SelectButtonSetDisabled d => Some d | _ => None end.
Definition told_info (e : effect) : option bool :=
  match e with InfoSetDisabled d => Some d | _ => None end.
Definition click_bound (e : effect) : option bool :=
  match e with
  | ElementOnClick => Some true
  | ElementOffClick => Some false
  | _ => None
  end.

(** What the info field was asked to show, oldest first. *)
Fixpoint info_values (l : list effect) : list string :=
  match l with
  | [] => []
  | InfoSetValue s :: rest => s :: info_values rest
  | _ :: rest => info_values rest
  end.

Definition is_read (e : effect) : bool :=
  match e with ReadAsDataURL _ _ => true | _ => false end.

Definition painted (e : effect) : option string :=
  match e with ThumbnailBackground css => Some css | _ => None end.

(** What [updateUI] logs on a widget that shows previews and holds no
    file. *)
Definition emptied : list effect :=
  [InfoSetValue "";
   ElementOffClick;
   ElementOnClick;
   ThumbnailEmpty;
   ThumbnailBackground "";
   ElementAddClass "oo-ui-selectFileInputWidget-empty"].

(** The widget shows previews, and a click on its drop target opens the
    file picker exactly when no file is selected. *)
Definition clickable_when_empty (w : widget) : Prop :=
  shows_preview w /\
  latest click_bound (log w) =
  Some (match currentFile w with None => true | Some _ => false end).

(** The widget is not clearing its input, filters by [a], and what it has
    selected passes. *)
Definition filtered (a : option (list string)) (w : widget) : Prop :=
  inputClearing w = false /\ accept w = a /\ selection_allowed w.

(** Both sub-widgets were last told the disabled state the widget is in. *)
Definition in_sync (w : widget) : Prop :=
  latest told_button (log w) = Some (disabled w) /\
  latest told_info (log w) = Some (disabled w).

(** On a platform without file selection: the info field was only ever
    given [msg] and no preview was begun. *)
Definition notice_only (msg : string) (w : widget) : Prop :=
  isSupported w = false /\
  info_values (log w) = [msg] /\
  count is_push (log w) = 0.


(** Without a drop target: no preview was begun, no file read, and no
    deferred is waiting. *)
Definition no_preview (w : widget) : Prop :=
  showDropTarget w = false /\
  count is_push (log w) = 0 /\
  count is_read (log w) = 0 /\
  tasks w = [].

(** Selecting the file [f] would take it away again: [updateUI] runs
    ([selectButton] is there, the platform selects files) and gives the
    info field, which holds something, the empty name of [f]; the field
    changes, and [onInfoChange] calls [setValue( null )]. *)
Definition unselects_itself (w : widget) (f : File) : bool :=
  selectButton w && isSupported w && (file_name f =? "") && negb (infoValue w =? "").


End SelectFileWidget.

(** ** The static support test *)

(** [OO.ui.SelectFileWidget.static.isSupported]: [cache] is
    [isSupportedCache] ([None] for [null]), [probe] what
    [$input[ 0 ].files !== undefined] would answer now.  The result is the
    answer and the cache afterwards. *)
Definition static_isSupported (probe : bool) (cache : option bool) : bool * option bool :=
  match cache with
  | None => (probe, Some probe)
  | Some known => (known, cache)
  end.

(** The answers of a series of calls, [probes] being what the platform
    would answer at each. *)
Fixpoint isSupported_answers (probes : list bool) (cache : option bool) : list bool :=
  match probes with
  | [] => []
  | p :: rest =>
      let (answer, cache') := static_isSupported p cache in
      answer :: isSupported_answers rest cache'
  end.

(** [c] occurs in [s]. *)
Definition has_char (c : ascii) (s : string) : bool :=
  existsb (Ascii.eqb c) (list_ascii_of_string s).

(** * Properties *)

(** ** Facts about strings *)

Section StringFacts.

Lemma length_append (a b : string) :
  String.length (a ++ b) = String.length a + String.length b.
Proof. induction a as [|c a IH]; simpl; [reflexivity | now rewrite IH]. Qed.

Lemma append_nil_r (a : string) : a ++ "" = a.
Proof. induction a as [|c a IH]; simpl; [reflexivity | now rewrite IH]. Qed.

Lemma append_assoc (a b c : string) : (a ++ b) ++ c = a ++ (b ++ c).
Proof. induction a as [|x a IH]; simpl; [reflexivity | now rewrite IH]. Qed.

Lemma substring_0_0 (s : string) : substring 0 0 s = "".
Proof. destruct s; reflexivity. Qed.

(** The first [length a] characters of [a ++ b] are [a]. *)
Lemma substring_prefix_app (a b : string) :
  substring 0 (String.length a) (a ++ b) = a.
Proof.
  induction a as [|c a IH]; simpl.
  - apply substring_0_0.
  - now rewrite IH.
Qed.

(** Skipping [a] in [a ++ b] and taking [length b] characters gives [b]. *)
Lemma substring_suffix_app (a b : string) :
  substring (String.length a) (String.length b) (a ++ b) = b.
Proof.
  induction a as [|c a IH]; simpl; [|exact IH].
  induction b as [|c b IHb]; simpl; [reflexivity | now rewrite IHb].
Qed.

(** A string is its first [n] characters followed by the rest. *)
Lemma substring_split (s : string) :
  forall n, n <= String.length s ->
    s = substring 0 n s ++ substring n (String.length s - n) s.
Proof.
  induction s as [|c s IH]; intros n Hn; simpl in Hn.
  - assert (n = 0) by lia; subst; reflexivity.
  - destruct n as [|n].
    + simpl. f_equal.
      pose proof (substring_prefix_app s "") as H.
      rewrite append_nil_r in H. now rewrite H.
    + simpl. f_equal. apply IH. lia.
Qed.

Lemma length_substring_0 (s : string) :
  forall n, String.length (substring 0 n s) = Nat.min n (String.length s).
Proof.
  induction s as [|c s IH]; intros [|n]; simpl; try reflexivity.
  now rewrite IH.
Qed.

(** [substring 0 n s = a] with [n = length a] says that [a] starts [s]. *)
Lemma substring_0_is_prefix (a s : string) :
  substring 0 (String.length a) s = a <-> exists rest, s = a ++ rest.
Proof.
  split.
  - intros H.
    destruct (Nat.le_gt_cases (String.length a) (String.length s)) as [Hle|Hgt].
    + exists (substring (String.length a) (String.length s - String.length a) s).
      rewrite <- H at 1. now apply substring_split.
    + exfalso.
      assert (Hl : String.length (substring 0 (String.length a) s) = String.length a)
        by now rewrite H.
      rewrite length_substring_0 in Hl. lia.
  - intros [rest ->]. apply substring_prefix_app.
Qed.

(** [s.substr( -2 ) === "/*"] says that [s] ends in ["/*"]. *)
Lemma substr_last2 (s : string) :
  JS.substr s (-2) None = "/*" <-> exists q, s = q ++ "/*".
Proof.
  unfold JS.substr, JS.length. change (-2 <? 0)%Z with true. cbv iota.
  split.
  - intros H.
    destruct (Z.leb_spec (Z.of_nat (String.length s) - Z.max (Z.of_nat (String.length s) + -2) 0) 0)
      as [Hz|Hz]; [discriminate|].
    set (n := Z.to_nat (Z.max (Z.of_nat (String.length s) + -2) 0)) in *.
    assert (Hn : n <= String.length s) by (subst n; lia).
    replace (Z.to_nat (Z.of_nat (String.length s) - Z.max (Z.of_nat (String.length s) + -2) 0))
      with (String.length s - n) in H by (subst n; lia).
    exists (substring 0 n s).
    rewrite <- H. now apply substring_split.
  - intros [q ->].
    rewrite length_append. simpl String.length.
    destruct (Z.leb_spec (Z.of_nat (String.length q + 2) - Z.max (Z.of_nat (String.length q + 2) + -2) 0) 0)
      as [Hz|Hz]; [lia|].
    replace (Z.to_nat (Z.max (Z.of_nat (String.length q + 2) + -2) 0))
      with (String.length q) by lia.
    replace (Z.to_nat (Z.of_nat (String.length q + 2) - Z.max (Z.of_nat (String.length q + 2) + -2) 0))
      with (String.length "/*") by (simpl; lia).
    apply substring_suffix_app.
Qed.

(** [s.substr( 0, n )] for [0 < n]. *)
Lemma substr_0 (s : string) (n : nat) :
  JS.substr s 0 (Some (Z.of_nat n)) = substring 0 n s.
Proof.
  unfold JS.substr, JS.length. change (0 <? 0)%Z with false. cbv iota.
  rewrite Z.sub_0_r.
  destruct (Z.leb_spec (Z.min (Z.max (Z.of_nat n) 0) (Z.of_nat (String.length s))) 0) as [Hz|Hz].
  - assert (Hc : n = 0 \/ String.length s = 0) by lia.
    destruct Hc as [-> | Hs].
    + now rewrite substring_0_0.
    + destruct s; [|discriminate]. destruct n; reflexivity.
  - simpl Z.to_nat.
    destruct (Nat.le_gt_cases n (String.length s)) as [Hle|Hgt].
    + f_equal. lia.
    + replace (Z.to_nat (Z.min (Z.max (Z.of_nat n) 0) (Z.of_nat (String.length s))))
        with (String.length s) by lia.
      clear Hz. revert n Hgt.
      induction s as [|c s IH]; intros n Hgt; simpl in *.
      * destruct n; reflexivity.
      * destruct n as [|n]; [lia|]. simpl. f_equal. apply IH. lia.
Qed.

(** Dropping the last character of [q ++ "/*"], the way the loop of
    [isAllowedType] and [slice( 0, -1 )] do. *)
Lemma substr_drop_star (q : string) :
  JS.substr (q ++ "/*") 0 (Some (JS.length (q ++ "/*") - 1)%Z) = q ++ "/".
Proof.
  unfold JS.length at 1. rewrite length_append. simpl String.length.
  replace (Z.of_nat (String.length q + 2) - 1)%Z
    with (Z.of_nat (String.length (q ++ "/"))) by (rewrite length_append; simpl; lia).
  rewrite substr_0.
  replace (q ++ "/*") with ((q ++ "/") ++ "*") by (now rewrite append_assoc).
  apply substring_prefix_app.
Qed.

Lemma slice_drop_star (q : string) : JS.slice_0_m1 (q ++ "/*") = q ++ "/".
Proof.
  unfold JS.slice_0_m1. rewrite length_append. simpl String.length.
  replace (String.length q + 2 - 1) with (String.length (q ++ "/"))
    by (rewrite length_append; simpl; lia).
  replace (q ++ "/*") with ((q ++ "/") ++ "*") by (now rewrite append_assoc).
  apply substring_prefix_app.
Qed.

End StringFacts.

(** ** The MIME filter *)

Section Filter.

Lemma isAllowedType_loop_spec (l : list string) (mimeType : string) :
  isAllowedType_loop l mimeType = true <->
  exists p, In p l /\ matches_pattern p mimeType.
Proof.
  induction l as [|p l IH]; simpl.
  - split; [discriminate | intros (p & [] & _)].
  - destruct (String.eqb_spec p mimeType) as [->|Hne].
    + split; [intros _ | reflexivity].
      exists mimeType. split; now left.
    + destruct (String.eqb_spec (JS.substr p (-2) None) "/*") as [He|He].
      * apply substr_last2 in He. destruct He as [q ->].
        rewrite substr_drop_star. unfold JS.length at 1. rewrite substr_0.
        destruct (String.eqb_spec (substring 0 (String.length (q ++ "/")) mimeType) (q ++ "/"))
          as [Hp|Hp].
        -- split; [intros _ | reflexivity].
           exists (q ++ "/*"). split; [now left|].
           right. exists q. split; [reflexivity|].
           now apply substring_0_is_prefix.
        -- rewrite IH. split; intros (p' & Hin & Hm).
           ++ exists p'. split; [now right | assumption].
           ++ destruct Hin as [<-|Hin]; [|exists p'; now split].
              destruct Hm as [Heq | (q' & Hq & rest & Hrest)]; [congruence|].
              exfalso. apply Hp. apply substring_0_is_prefix.
              exists rest. rewrite Hrest.
              rewrite <- (slice_drop_star q), <- (slice_drop_star q'), Hq.
              reflexivity.
      * rewrite IH. split; intros (p' & Hin & Hm).
        -- exists p'. split; [now right | assumption].
        -- destruct Hin as [<-|Hin]; [|exists p'; now split].
           destruct Hm as [Heq | (q & Hq & _)]; [congruence|].
           exfalso. apply He. apply substr_last2. now exists q.
Qed.

(** For a pattern ["type/*"] whose type holds no slash, to start with
    ["type/"] is to have ["type/"] as the part up to the first slash. *)
Lemma through_slash_prefix (q : string) :
  no_slash q = true ->
  forall m, through_slash m = Some (q ++ "/") <-> exists rest, m = (q ++ "/") ++ rest.
Proof.
  induction q as [|a q IH]; simpl; intros Hq m.
  - destruct m as [|c r]; simpl.
    + split; [discriminate | intros [rest H]; discriminate].
    + destruct (Ascii.eqb_spec c "/") as [->|Hc].
      * split; [intros _; now exists r | reflexivity].
      * split.
        -- destruct (through_slash r); simpl; intros H; inversion H; contradiction.
        -- intros [rest H]. inversion H. contradiction.
  - apply andb_true_iff in Hq. destruct Hq as [Ha Hq].
    apply negb_true_iff in Ha.
    destruct m as [|c r]; simpl.
    + split; [discriminate | intros [rest H]; discriminate].
    + destruct (Ascii.eqb_spec c "/") as [->|Hc].
      * split.
        -- intros H. inversion H; subst. now rewrite Ascii.eqb_refl in Ha.
        -- intros [rest H]. inversion H; subst. now rewrite Ascii.eqb_refl in Ha.
      * split.
        -- destruct (through_slash r) as [t|] eqn:E; simpl; [|discriminate].
           intros H. inversion H; subst.
           apply (IH Hq) in E. destruct E as [rest ->]. now exists rest.
        -- intros [rest H]. inversion H; subst.
           assert (E : through_slash ((q ++ "/") ++ rest) = Some (q ++ "/"))
             by (apply (IH Hq); now exists rest).
           now rewrite E.
Qed.

(** C4.  For a pattern list and a non-empty MIME type, [isAllowedType]
    answers true exactly when some pattern of the list equals the type, or
    ends in ["/*"] and, its ["*"] removed, is the beginning of the type up
    to and including the slash.  In particular a pattern [p] of the list
    that ends in ["/*"] allows [p.slice(0,-1)] followed by anything.  For a
    pattern ["type/*"] with no slash in its type, the beginning in question
    is the type's part up to and including its first slash.  (The list need
    not even be non-empty: the empty list allows nothing.) *)
Theorem isAllowedType_matches_some_pattern
    (l : list string) (mimeType : string) (Hm : mimeType <> "") :
  (isAllowedType (Some l) mimeType = true <->
   exists p, In p l /\ matches_pattern p mimeType) /\
  (forall q anything, In (q ++ "/*") l ->
     isAllowedType (Some l) (JS.slice_0_m1 (q ++ "/*") ++ anything) = true) /\
  (forall q, no_slash q = true ->
     (matches_pattern (q ++ "/*") mimeType <->
      q ++ "/*" = mimeType \/
      through_slash mimeType = Some (JS.slice_0_m1 (q ++ "/*")))).
Proof.
  split; [|split].
  - unfold isAllowedType, JS.truthy.
    destruct (String.eqb_spec mimeType "") as [E|_]; [contradiction|].
    simpl. apply isAllowedType_loop_spec.
  - intros q anything Hin. unfold isAllowedType.
    destruct (negb (JS.truthy _)); [reflexivity|].
    apply isAllowedType_loop_spec.
    exists (q ++ "/*"). split; [assumption|].
    right. exists q. split; [reflexivity|].
    exists anything. now rewrite slice_drop_star.
  - intros q Hq. rewrite slice_drop_star, (through_slash_prefix q Hq).
    unfold matches_pattern. split; (intros [H|H]; [now left | right]).
    + destruct H as (q' & Hq' & rest & ->). exists rest.
      rewrite <- (slice_drop_star q), <- (slice_drop_star q'), Hq'. reflexivity.
    + exists q. split; [reflexivity | exact H].
Qed.

Lemma isAllowedType_matches_some_pattern_witness :
  "image/jpeg" <> "" /\
  isAllowedType (Some ["text/plain"; "image/*"]) "image/jpeg" = true /\
  isAllowedType (Some ["text/plain"; "image/*"]) (JS.slice_0_m1 "image/*" ++ "anything") = true.
Proof.
  assert (Hm : "image/jpeg" <> "") by discriminate.
  split; [exact Hm|].
  destruct (isAllowedType_matches_some_pattern ["text/plain"; "image/*"] "image/jpeg" Hm)
    as (Hiff & Hany & _).
  split.
  - apply Hiff. exists "image/*". split; [right; now left|].
    right. exists "image". split; [reflexivity | now exists "jpeg"].
  - apply (Hany "image" "anything"). right. now left.
Defined.

(** C5.  [isAllowedType] answers true whenever the accepted types are the
    accept-all value [null], whatever the MIME type, and whenever the MIME
    type is the empty string, whatever the accepted types. *)
Theorem isAllowedType_accept_all_or_no_type :
  (forall mimeType, isAllowedType None mimeType = true) /\
  (forall accept, isAllowedType accept "" = true).
Proof.
  split.
  - reflexivity.
  - intros [l|]; reflexivity.
Qed.

Example isAllowedType_samples :
  isAllowedType (Some ["image/*"; "text/plain"]) "image/png" = true /\
  isAllowedType (Some ["image/*"; "text/plain"]) "text/plain" = true /\
  isAllowedType (Some ["image/*"; "text/plain"]) "text/html" = false /\
  isAllowedType (Some ["image/*"]) "image" = false /\
  isAllowedType (Some []) "image/png" = false /\
  isAllowedType (Some []) "" = true /\
  isAllowedType None "text/html" = true.
Proof. repeat split. Qed.

End Filter.

(** ** The form-compatible widget *)

(** C10.  [setValue( undefined )] on the form-compatible widget returns at
    once: the widget is left as it was, so neither [currentFile] nor the
    stored string value changes and nothing is emitted, whatever the methods
    of the toolkit do. *)
Theorem setValue_undefined_is_noop
    (InputWidget_setValue : string -> SelectFileInputWidget.widget -> SelectFileInputWidget.widget)
    (InputWidget_getValue : SelectFileInputWidget.widget -> string * SelectFileInputWidget.widget)
    (info_setValue : string -> SelectFileInputWidget.widget -> SelectFileInputWidget.widget)
    (w : SelectFileInputWidget.widget) :
  let w' := SelectFileInputWidget.setValue InputWidget_setValue InputWidget_getValue
              info_setValue SelectFileInputWidget.Undefined w in
  w' = w /\
  SelectFileInputWidget.currentFile w' = SelectFileInputWidget.currentFile w /\
  SelectFileInputWidget.value w' = SelectFileInputWidget.value w /\
  SelectFileInputWidget.log w' = SelectFileInputWidget.log w.
Proof. simpl. repeat split. Qed.

(** ** The richer widget *)

Import SelectFileWidget.
Local Open Scope widget_scope.

(** *** Properties kept by every step of a method *)

Section Preservation.

Variable I : widget -> Prop.

Lemma preserves_ret {A} (a : A) : preserves I (ret a).
Proof. intros w H; exact H. Qed.

Lemma preserves_gets {A} (field : widget -> A) : preserves I (gets field).
Proof. intros w H; exact H. Qed.

Lemma preserves_bind {A B} (c : M A) (k : A -> M B) :
  preserves I c -> (forall a, preserves I (k a)) -> preserves I (bind c k).
Proof.
  intros Hc Hk w H. unfold bind.
  specialize (Hc w H). destruct (c w) as [a w']. now apply Hk.
Qed.

Lemma preserves_when (b : bool) (c : M unit) :
  preserves I c -> preserves I (when b c).
Proof. intros Hc. destruct b; [exact Hc | apply preserves_ret]. Qed.

Lemma preserves_forEach {A} (l : list A) (body : A -> M unit) :
  (forall x, preserves I (body x)) -> preserves I (forEach l body).
Proof.
  intros Hb. induction l as [|x l IH]; simpl.
  - apply preserves_ret.
  - apply preserves_bind; [apply Hb | intros _; exact IH].
Qed.

Lemma preserves_modify (f : widget -> widget) :
  (forall w, I w -> I (f w)) -> preserves I (modify f).
Proof. intros Hf w H. now apply Hf. Qed.

End Preservation.

(** Breaks a method down to its [say]s and [modify]s, which [prim] must
    settle. *)
Ltac preserve_with prim :=
  repeat match goal with
    | |- preserves _ (ret _) => apply preserves_ret
    | |- preserves _ (gets _) => apply preserves_gets
    | |- preserves _ (bind _ _) => apply preserves_bind; [| intro]
    | |- preserves _ (forEach _ _) => apply preserves_forEach; intro
    | |- preserves _ (when _ _) => apply preserves_when
    | |- preserves _ (let _ := _ in _) => cbv zeta
    | |- preserves _ ((fun _ => _) _) => cbv beta
    | |- preserves _ (if ?b then _ else _) => destruct b
    | |- preserves _ (match ?x with _ => _ end) => destruct x
    | |- preserves _ _ => progress prim
    end.

Ltac unfold_methods :=
  unfold step, run, onFileSelected, onDrop, onDragLeave, info_changed,
    onInfoChange, connect, reader_onload, img_onload, setValue, emit_change,
    updateUI, SelectFileInputWidget_updateUI, setValue_nested, setValue_with,
    emit_change_with, updateUI_with, SelectFileInputWidget_updateUI_with,
    info_setValue, refresh_preview, loadAndGetImageUrl, readAsDataURL,
    on_resolved, on_rejected, getFilename, setDisabled,
    SelectFileInputWidget_setDisabled, Widget_setDisabled, isDisabled;
  cbv beta.

(** *** Counting in the log *)

Lemma count_app (p : effect -> bool) (l l' : list effect) :
  count p (l ++ l') = count p l + count p l'.
Proof. unfold count. now rewrite filter_app, length_app. Qed.

(** The listeners are called in turn. *)
Lemma forEach_deliver (v : value) (l : list subscriber) (w : widget) :
  forEach l (fun s => say (Delivered s v)) w =
  (tt, set_log (log w ++ map (fun s => Delivered s v) l) w).
Proof.
  revert w. induction l as [|s l IH]; intros w; simpl.
  - rewrite app_nil_r. now destruct w.
  - unfold bind, say, modify. rewrite IH. simpl.
    now rewrite <- app_assoc.
Qed.

Ltac count_tac :=
  unfold balanced, count in *; simpl in *;
  repeat rewrite filter_app; repeat rewrite length_app;
  simpl; try lia.

(** A [modify] (and so a [say]) is settled by looking at the record. *)
Ltac by_fields tac :=
  match goal with
  | |- preserves _ (say _) => unfold say
  | |- preserves _ (modify _) => idtac
  end;
  apply preserves_modify;
  let w := fresh "w" in let H := fresh "H" in
  intros w H; destruct w; simpl in *; tac.

(** *** What the methods leave alone *)

(** The log only grows: whatever happens is added at its end. *)
Lemma step_extends_log (w0 : widget) (a : action) :
  preserves (fun w => exists new, log w = (log w0 ++ new)%list) (step a).
Proof.
  destruct a; simpl; unfold_methods;
    preserve_with ltac:(by_fields ltac:(
      first [ assumption
            | match goal with
              | H : exists _, _ |- _ =>
                  let l := fresh "l" in
                  destruct H as [l ->]; eexists; rewrite <- app_assoc; reflexivity
              end ])).
Qed.

Lemma run_extends_log (l : list action) (w : widget) :
  exists new, log (exec (run l) w) = (log w ++ new)%list.
Proof.
  apply (preserves_forEach (fun w' => exists new, log w' = (log w ++ new)%list)
           l step (step_extends_log w)).
  exists []. now rewrite app_nil_r.
Qed.

(** *** The way from the info field back into [setValue] *)

(** [info.setValue] enters the [setValue] behind it only with an info field
    that has just become empty. *)
Lemma info_setValue_hook (d d' : value -> M unit) (s : string) (w : widget) :
  (forall w1, infoValue w1 = "" -> d None w1 = d' None w1) ->
  info_setValue d s w = info_setValue d' s w.
Proof.
  intros H. unfold info_setValue, bind, say, modify, gets, ret.
  destruct w as [sup btn acc tgt lim off cur clr bs ts nxt lg held]; simpl.
  destruct (held =? s); [reflexivity|].
  destruct (String.eqb_spec s "") as [->|_]; [|reflexivity].
  apply H. reflexivity.
Qed.

Lemma updateUI_with_hook (d d' : value -> M unit) (w : widget) :
  (forall w1, infoValue w1 = "" -> d None w1 = d' None w1) ->
  updateUI_with d w = updateUI_with d' w.
Proof.
  intros H. unfold updateUI_with, SelectFileInputWidget_updateUI_with, bind, gets.
  destruct (negb (selectButton w) || negb (isSupported w)); [reflexivity|].
  unfold getFilename, bind, gets, ret.
  now rewrite (info_setValue_hook d d' _ _ H).
Qed.

Lemma setValue_with_hook (d d' : value -> M unit) (v : value) (w : widget) :
  (forall w1, infoValue w1 = "" -> d None w1 = d' None w1) ->
  setValue_with d v w = setValue_with d' v w.
Proof.
  intros H. unfold setValue_with, emit_change_with, bind, gets, modify.
  destruct (negb (same_value (currentFile w) v)); [|reflexivity].
  unfold say at 1 3, modify. cbv beta iota.
  now rewrite (updateUI_with_hook d d' _ H).
Qed.

(** Entered with an empty info field, [setValue( null )] gives the field
    [''] again and so never asks for the [setValue] behind it. *)
Lemma setValue_with_settled (d d' : value -> M unit) (w : widget) :
  infoValue w = "" -> setValue_with d None w = setValue_with d' None w.
Proof.
  intros Hi. destruct w as [sup btn acc tgt lim off cur clr bs ts nxt lg held].
  simpl in Hi. subst held.
  unfold setValue_with, emit_change_with, updateUI_with,
    SelectFileInputWidget_updateUI_with, getFilename, info_setValue, bind, gets,
    modify, ret.
  destruct cur as [g|]; simpl; [|reflexivity].
  destruct (negb btn || negb sup); reflexivity.
Qed.

(** Whatever stands in the place of a third entry of [setValue], the
    methods do the same: two levels are all the circle has. *)
Lemma reentry_is_shallow (d d' : value -> M unit) (v : value) (w : widget) :
  setValue_with (setValue_with d) v w = setValue_with (setValue_with d') v w.
Proof.
  apply setValue_with_hook. intros w1 H1. now apply setValue_with_settled.
Qed.

(** [setValue] is the method of the source, which calls itself through
    [emit], [updateUI], the info field and [onInfoChange]; and so is
    [updateUI]. *)
Lemma setValue_unfolds (v : value) (w : widget) :
  setValue v w = setValue_with setValue v w.
Proof. unfold setValue, setValue_nested. apply reentry_is_shallow. Qed.

Lemma updateUI_unfolds (w : widget) : updateUI w = updateUI_with setValue w.
Proof.
  unfold updateUI. apply updateUI_with_hook. intros w1 H1.
  unfold setValue, setValue_nested. now apply setValue_with_settled.
Qed.

(** [info.setValue( s )] when the field's change, if any, does not lead
    back into [setValue]: the name is not empty, or the field is. *)
Lemma info_setValue_quiet (d : value -> M unit) (s : string) (w : widget) :
  (s =? "") && negb (infoValue w =? "") = false ->
  info_setValue d s w =
  (tt, set_log (log w ++ [InfoSetValue s]) (set_infoValue s w)).
Proof.
  intros H. unfold info_setValue, bind, say, modify, gets, ret.
  destruct w as [sup btn acc tgt lim off cur clr bs ts nxt lg held]; simpl in *.
  destruct (String.eqb_spec held s) as [->|Hne]; [reflexivity|].
  destruct (String.eqb_spec s "") as [->|_]; [|reflexivity].
  destruct (String.eqb_spec held "") as [E|_]; [contradiction | discriminate].
Qed.

(** [info.setValue( '' )] on a field that holds something: the field is
    emptied and [onInfoChange] calls [setValue( null )]. *)
Lemma info_setValue_loud (d : value -> M unit) (w : widget) :
  (infoValue w =? "") = false ->
  info_setValue d "" w =
  d None (set_infoValue "" (set_log (log w ++ [InfoSetValue ""]) w)).
Proof.
  intros H. unfold info_setValue, bind, say, modify, gets, ret.
  destruct w as [sup btn acc tgt lim off cur clr bs ts nxt lg held]; simpl in *.
  now rewrite H.
Qed.

(** *** The selection and the changes emitted *)

Lemma same_value_refl (v : value) : same_value v v = true.
Proof. destruct v as [f|]; simpl; [apply Pos.eqb_refl | reflexivity]. Qed.

(** [same_value] is identity of reference. *)
Lemma same_value_by_reference (a b : value) :
  same_value a b = true <->
  match a, b with
  | Some x, Some y => file_ref x = file_ref y
  | None, None => True
  | _, _ => False
  end.
Proof.
  destruct a as [x|], b as [y|]; simpl;
    [apply Pos.eqb_eq | split; [discriminate | tauto] ..|tauto].
Qed.

Ltac selection_tac :=
  match goal with H : _ /\ _ |- _ => destruct H end;
  split; [assumption | count_tac].

(** Outside of [setValue] nothing touches [currentFile] or emits a
    change. *)
Lemma refresh_preview_keeps_selection (c : value) (n : nat) :
  preserves (fun w => currentFile w = c /\ count is_change (log w) = n)
    refresh_preview.
Proof.
  unfold refresh_preview, loadAndGetImageUrl, readAsDataURL, on_rejected.
  preserve_with ltac:(by_fields selection_tac).
Qed.

Lemma deliveries_keep_selection (c : value) (n : nat) (v : value) (l : list subscriber) :
  preserves (fun w => currentFile w = c /\ count is_change (log w) = n)
    (forEach l (fun s => say (Delivered s v))).
Proof. preserve_with ltac:(by_fields selection_tac). Qed.

(** [updateUI] as it runs inside the [setValue] that [onInfoChange]
    called. *)
Lemma updateUI_nested_keeps_selection (c : value) (n : nat) :
  preserves (fun w => currentFile w = c /\ count is_change (log w) = n)
    (updateUI_with (fun _ => ret tt)).
Proof.
  unfold updateUI_with, SelectFileInputWidget_updateUI_with, info_setValue,
    getFilename.
  preserve_with ltac:(first [ apply refresh_preview_keeps_selection
                            | by_fields selection_tac ]).
Qed.

(** [setValue] on a value other than the current one. *)
Lemma setValue_with_new (d : value -> M unit) (file : value) (w : widget) :
  same_value (currentFile w) file = false ->
  exec (setValue_with d file) w =
  exec (emit_change_with d file) (set_currentFile file w).
Proof.
  intros H. unfold exec, setValue_with, bind at 1, gets. rewrite H. reflexivity.
Qed.

Lemma setValue_new (file : value) (w : widget) :
  same_value (currentFile w) file = false ->
  exec (setValue file) w = exec (emit_change file) (set_currentFile file w).
Proof. apply setValue_with_new. Qed.

(** [setValue] on the current value does nothing. *)
Lemma setValue_same (file : value) (w : widget) :
  same_value (currentFile w) file = true ->
  exec (setValue file) w = w.
Proof.
  intros H. unfold exec, setValue, setValue_with, bind, gets. rewrite H. reflexivity.
Qed.

(** [emit( 'change', v )]: the entry is logged, [updateUI] runs, the
    listeners of the application are called. *)
Lemma emit_change_with_unfold (d : value -> M unit) (v : value) (w : widget) :
  let wu := exec (updateUI_with d) (set_log (log w ++ [EmitChange v]) w) in
  exec (emit_change_with d v) w =
  set_log (log wu ++ map (fun s => Delivered s v) (bindings w)) wu.
Proof.
  intros wu. subst wu.
  unfold exec, emit_change_with. unfold bind at 1. unfold say at 1, modify.
  unfold bind at 1, gets. unfold bind at 1.
  destruct (updateUI_with d _) as [u wu].
  rewrite forEach_deliver. destruct w; reflexivity.
Qed.

Lemma emit_change_unfold (v : value) (w : widget) :
  let wu := exec updateUI (set_log (log w ++ [EmitChange v]) w) in
  exec (emit_change v) w =
  set_log (log wu ++ map (fun s => Delivered s v) (bindings w)) wu.
Proof. apply emit_change_with_unfold. Qed.

(** The [setValue( null )] that [onInfoChange] calls: a selected file is
    taken away and one change is emitted; without a file nothing
    happens. *)
Lemma setValue_nested_effect (w : widget) :
  let w' := exec (setValue_nested None) w in
  currentFile w' = None /\
  count is_change (log w') =
  count is_change (log w) + match currentFile w with Some _ => 1 | None => 0 end.
Proof.
  intros w'. subst w'. destruct (currentFile w) as [g|] eqn:E.
  - assert (Hnew : same_value (currentFile w) None = false) by now rewrite E.
    unfold setValue_nested. rewrite (setValue_with_new _ _ _ Hnew).
    rewrite emit_change_with_unfold.
    set (w0 := set_log _ (set_currentFile None w)).
    pose proof (updateUI_nested_keeps_selection None (count is_change (log w) + 1) w0)
      as Hu.
    destruct Hu as [Hc Hn]; [destruct w; split; [reflexivity | simpl; count_tac]|].
    change (snd (updateUI_with (fun _ => ret tt) w0))
      with (exec (updateUI_with (fun _ => ret tt)) w0) in Hc, Hn.
    destruct (exec (updateUI_with (fun _ => ret tt)) w0); simpl in *.
    split; [exact Hc|]. rewrite count_app, Hn.
    assert (Hz : forall bs : list subscriber,
               count is_change (map (fun s => Delivered s None) bs) = 0)
      by (induction bs; [reflexivity | assumption]).
    rewrite Hz. lia.
  - assert (Hsame : same_value (currentFile w) None = true) by now rewrite E.
    unfold exec, setValue_nested, setValue_with, bind, gets. rewrite Hsame. simpl.
    split; [exact E | lia].
Qed.

(** The parent [updateUI] gives the info field the file name.  A file
    without a name given to a field that holds something is unselected on
    the spot, and a change with [null] is emitted. *)
Lemma parent_updateUI_effect (w : widget) :
  let w' := exec SelectFileInputWidget_updateUI w in
  match currentFile w with
  | Some f =>
      if (file_name f =? "") && negb (infoValue w =? "")
      then currentFile w' = None /\
           count is_change (log w') = count is_change (log w) + 1
      else currentFile w' = Some f /\
           count is_change (log w') = count is_change (log w)
  | None =>
      currentFile w' = None /\
      count is_change (log w') = count is_change (log w)
  end.
Proof.
  intros w'. subst w'.
  unfold exec, SelectFileInputWidget_updateUI, SelectFileInputWidget_updateUI_with,
    getFilename, bind, gets, ret. cbv beta iota.
  assert (Hquiet : forall s, (s =? "") && negb (infoValue w =? "") = false ->
            currentFile (snd (info_setValue setValue_nested s w)) = currentFile w /\
            count is_change (log (snd (info_setValue setValue_nested s w))) =
            count is_change (log w)).
  { intros s Hs. rewrite (info_setValue_quiet _ _ _ Hs).
    destruct w; simpl. split; [reflexivity | count_tac]. }
  assert (Hloud : (infoValue w =? "") = false ->
            currentFile (snd (info_setValue setValue_nested "" w)) = None /\
            count is_change (log (snd (info_setValue setValue_nested "" w))) =
            count is_change (log w) +
            match currentFile w with Some _ => 1 | None => 0 end).
  { intros Hs. rewrite (info_setValue_loud _ _ Hs).
    set (w0 := set_infoValue "" _).
    destruct (setValue_nested_effect w0) as [Hc Hn].
    split; [exact Hc|]. unfold exec in Hn. rewrite Hn.
    subst w0. destruct w; simpl. count_tac. }
  destruct (currentFile w) as [f|] eqn:E.
  - destruct ((file_name f =? "") && negb (infoValue w =? "")) eqn:Hs.
    + apply andb_true_iff in Hs. destruct Hs as [Hn Hi].
      apply String.eqb_eq in Hn. rewrite Hn.
      apply negb_true_iff in Hi. destruct (Hloud Hi) as [Hc Hk]. now split.
    + destruct (Hquiet _ Hs) as [Hc Hk]. now split.
  - destruct (infoValue w =? "") eqn:Hi.
    + destruct (Hquiet "") as [Hc Hk]; [reflexivity|]. now split.
    + destruct (Hloud eq_refl) as [Hc Hk]. split; [exact Hc | lia].
Qed.

(** [updateUI], past its first test, is the parent method and then the
    refresh of the preview. *)
Lemma updateUI_runs (w : widget) :
  selectButton w = true -> isSupported w = true ->
  exec updateUI w = exec refresh_preview (exec SelectFileInputWidget_updateUI w).
Proof.
  intros Hb Hs. unfold exec, updateUI, updateUI_with. unfold bind at 1 2, gets.
  rewrite Hb, Hs. cbv beta iota. cbn [negb orb]. unfold bind.
  unfold SelectFileInputWidget_updateUI.
  now destruct (SelectFileInputWidget_updateUI_with setValue_nested w).
Qed.

Lemma updateUI_returns (w : widget) :
  (selectButton w && isSupported w) = false -> updateUI w = (tt, w).
Proof.
  intros H. unfold updateUI, updateUI_with, bind, gets.
  destruct (selectButton w), (isSupported w); try discriminate; reflexivity.
Qed.

(** What [updateUI] does to the selection and to the number of changes. *)
Lemma updateUI_effect (w : widget) :
  let w' := exec updateUI w in
  match currentFile w with
  | Some f =>
      if unselects_itself w f
      then currentFile w' = None /\
           count is_change (log w') = count is_change (log w) + 1
      else currentFile w' = Some f /\
           count is_change (log w') = count is_change (log w)
  | None =>
      currentFile w' = None /\
      count is_change (log w') = count is_change (log w)
  end.
Proof.
  intros w'. subst w'. unfold unselects_itself.
  destruct (selectButton w && isSupported w) eqn:Hg.
  - apply andb_true_iff in Hg. destruct Hg as [Hb Hs].
    rewrite (updateUI_runs w Hb Hs).
    pose proof (parent_updateUI_effect w) as Hp. cbv zeta in Hp.
    set (w1 := exec SelectFileInputWidget_updateUI w) in *.
    pose proof (refresh_preview_keeps_selection (currentFile w1)
                  (count is_change (log w1)) w1 (conj eq_refl eq_refl)) as [Hc Hn].
    change (snd (refresh_preview w1)) with (exec refresh_preview w1) in Hc, Hn.
    rewrite !Hc, !Hn. exact Hp.
  - unfold exec. rewrite (updateUI_returns w Hg). cbn [andb snd].
    destruct (currentFile w); now split.
Qed.

(** What [setValue] does to the selection and to the number of changes:
    nothing for the value that is selected already; otherwise the value is
    selected and one change is emitted, unless it is a file that unselects
    itself, which leaves no file selected after two changes. *)
Lemma setValue_effect (file : value) (w : widget) :
  let w' := exec (setValue file) w in
  let vanishes :=
    match file with Some f => unselects_itself w f | None => false end in
  (same_value (currentFile w) file = true -> w' = w) /\
  (same_value (currentFile w) file = false ->
     currentFile w' = (if vanishes then None else file) /\
     count is_change (log w') = count is_change (log w) + (if vanishes then 2 else 1)).
Proof.
  intros w' vanishes. subst w'. split; intros H.
  - now apply setValue_same.
  - rewrite (setValue_new _ _ H), emit_change_unfold.
    set (w0 := set_log _ (set_currentFile file w)).
    pose proof (updateUI_effect w0) as Hu. cbv zeta in Hu.
    assert (Hn0 : count is_change (log w0) = count is_change (log w) + 1)
      by (destruct w; simpl; count_tac).
    assert (Hz : forall bs : list subscriber,
               count is_change (map (fun s => Delivered s file) bs) = 0)
      by (induction bs; [reflexivity | assumption]).
    assert (Hfin : forall (bs : list subscriber) (wu : widget),
              currentFile (set_log (log wu ++ map (fun s => Delivered s file) bs) wu)
              = currentFile wu /\
              count is_change
                (log (set_log (log wu ++ map (fun s => Delivered s file) bs) wu))
              = count is_change (log wu)).
    { intros bs wu. destruct wu; simpl. rewrite count_app, Hz. split; [reflexivity | lia]. }
    destruct (Hfin (bindings (set_currentFile file w)) (exec updateUI w0)) as [Hc Hn].
    rewrite Hc, Hn.
    change (currentFile w0) with file in Hu.
    subst vanishes. destruct file as [f|].
    + change (unselects_itself w0 f) with (unselects_itself w f) in Hu.
      destruct (unselects_itself w f); destruct Hu as [Hu1 Hu2];
        (split; [exact Hu1 | lia]).
    + destruct Hu as [Hu1 Hu2]. split; [exact Hu1 | lia].
Qed.

(** *** Disabling *)

Lemma setDisabled_forced_off (d : bool) : preserves forced_off (setDisabled d).
Proof.
  intros w [Hs Hd]. destruct w; simpl in *; subst.
  split; [reflexivity|]. simpl. apply orb_true_r.
Qed.

Lemma step_forced_off (a : action) : preserves forced_off (step a).
Proof.
  destruct a; simpl; try apply setDisabled_forced_off;
    unfold_methods; preserve_with ltac:(by_fields ltac:(assumption)).
Qed.

Lemma run_forced_off (l : list action) : preserves forced_off (run l).
Proof. apply preserves_forEach, step_forced_off. Qed.

Lemma construct_forced_off (cfg : config) : forced_off (construct false cfg).
Proof. destruct cfg as [acc [|] [|c ns] dr bo tg lim]; split; reflexivity. Qed.

(** C9.  On a platform without file selection the richer widget is disabled
    when it is constructed, whatever the configuration asks for, and it is
    still disabled after anything that happens to it later, [setDisabled( d )]
    with either [d] included. *)
Theorem unsupported_widget_is_always_disabled (cfg : config) :
  disabled (construct false cfg) = true /\
  (forall d, disabled (exec (setDisabled d) (construct false cfg)) = true) /\
  (forall (l : list action) (d : bool),
     let w := exec (run l) (construct false cfg) in
     disabled w = true /\ disabled (exec (setDisabled d) w) = true).
Proof.
  pose proof (construct_forced_off cfg) as H0.
  split; [apply H0|]. split.
  - intros d. apply (setDisabled_forced_off d _ H0).
  - intros l d w.
    assert (Hw : forced_off w) by (apply run_forced_off, H0).
    split; [apply Hw | apply (setDisabled_forced_off d _ Hw)].
Qed.

(** *** The two ways a file comes in *)

Lemma drop_ignored_silent (w : widget) : unchanged_and_silent w (drop_ignored w).
Proof. destruct w; split; simpl; [reflexivity | count_tac]. Qed.

Lemma onDrop_disabled (files : list File) (w : widget) :
  disabled w = true -> onDrop files w = (false, drop_ignored w).
Proof.
  intros H. destruct w; simpl in *; subst. reflexivity.
Qed.

Lemma onDrop_nothing_allowed (files : list File) (w : widget) :
  allowed_file (accept w) files = None -> onDrop files w = (false, drop_ignored w).
Proof.
  intros H. destruct w as [sup btn acc tgt lim [|] cur clr bs ts n lg held]; simpl in *.
  - reflexivity.
  - unfold onDrop, bind, say, modify, isDisabled, gets; simpl. rewrite H. reflexivity.
Qed.

Lemma allowed_file_rejected (accept : option (list string)) (files : list File) (f : File) :
  first_file files = Some f ->
  isAllowedType accept (file_type f) = false ->
  allowed_file accept files = None.
Proof. intros Hf Hr. unfold allowed_file. now rewrite Hf, Hr. Qed.

Lemma allowed_file_accepted (accept : option (list string)) (files : list File) (f : File) :
  first_file files = Some f ->
  isAllowedType accept (file_type f) = true ->
  allowed_file accept files = Some f.
Proof. intros Hf Hr. unfold allowed_file. now rewrite Hf, Hr. Qed.

(** [onFileSelected] outside of its own clearing of the native input: the
    input is cleared and the file that is kept, if any, is passed to
    [setValue]. *)
Lemma onFileSelected_sets (files : list File) (w : widget) :
  inputClearing w = false ->
  exec (onFileSelected files) w =
  exec (setValue (allowed_file (accept w) files)) (set_log (log w ++ [InputClear]) w).
Proof.
  intros H. destruct w; simpl in *; subst. reflexivity.
Qed.

(** A file with a name stays selected. *)
Lemma named_file_stays (w : widget) (f : File) :
  file_name f <> "" -> unselects_itself w f = false.
Proof.
  intros H. unfold unselects_itself.
  destruct (String.eqb_spec (file_name f) "") as [E|_]; [contradiction|].
  now rewrite andb_false_r.
Qed.

(** A file of another reference than the selected one, if any, is another
    value. *)
Lemma other_reference_is_new (c : value) (f : File) :
  match c with Some g => file_ref g <> file_ref f | None => True end ->
  same_value c (Some f) = false.
Proof.
  destruct c as [g|]; simpl; [|reflexivity]. intros H. now apply Pos.eqb_neq.
Qed.

(** [setValue( f )] with a named file that is not selected already: the
    file is selected and one change is emitted. *)
Lemma setValue_named (f : File) (w : widget) :
  file_name f <> "" ->
  same_value (currentFile w) (Some f) = false ->
  currentFile (exec (setValue (Some f)) w) = Some f /\
  count is_change (log (exec (setValue (Some f)) w)) = count is_change (log w) + 1.
Proof.
  intros Hn Hnew. destruct (setValue_effect (Some f) w) as [_ H].
  specialize (H Hnew). cbv zeta in H. now rewrite (named_file_stays w f Hn) in H.
Qed.




(** C1, as the code has it.  A candidate whose MIME type fails the filter
    is dropped without a trace by the drop handler: [currentFile] stays and
    no change is emitted.  The handler of the native input treats it as an
    empty selection instead: it calls [setValue( null )], so [currentFile]
    becomes [null], and a change is emitted exactly when a file was selected
    before.  ([Hidle]: the handler is not being re-entered by its own
    clearing of the native input.) *)
Theorem rejected_file_ignored_by_drop_clears_from_input
    (w : widget) (files : list File) (f : File)
    (Hfirst : first_file files = Some f)
    (Hrejected : isAllowedType (accept w) (file_type f) = false)
    (Hidle : inputClearing w = false) :
  let dropped := exec (onDrop files) w in
  let chosen := exec (onFileSelected files) w in
  unchanged_and_silent w dropped /\
  chosen = exec (onFileSelected []) w /\
  currentFile chosen = None /\
  count is_change (log chosen) =
  count is_change (log w) + (if same_value (currentFile w) None then 0 else 1).
Proof.
  intros dropped chosen. subst dropped chosen.
  pose proof (allowed_file_rejected _ _ _ Hfirst Hrejected) as Hnone.
  split; [|split].
  - unfold exec. rewrite (onDrop_nothing_allowed _ _ Hnone).
    apply drop_ignored_silent.
  - rewrite !(onFileSelected_sets _ _ Hidle), Hnone. reflexivity.
  - rewrite (onFileSelected_sets _ _ Hidle), Hnone.
    set (w1 := set_log (log w ++ [InputClear]) w).
    assert (Hcur : currentFile w1 = currentFile w) by (destruct w; reflexivity).
    assert (Hcnt : count is_change (log w1) = count is_change (log w))
      by (destruct w; simpl; count_tac).
    destruct (setValue_effect None w1) as [Hsame Hnew].
    rewrite <- Hcur, <- Hcnt.
    destruct (same_value (currentFile w1) None) eqn:E.
    + rewrite (Hsame eq_refl). split; [|lia].
      destruct (currentFile w1); [discriminate | reflexivity].
    + destruct (Hnew eq_refl) as [Hf Hc]. now split.
Qed.

Lemma rejected_file_ignored_by_drop_clears_from_input_witness :
  let w := exec (onFileSelected [photo]) (construct true images_only) in
  (first_file [notes] = Some notes /\
   isAllowedType (accept w) (file_type notes) = false /\
   inputClearing w = false) /\
  currentFile w = Some photo /\
  currentFile (exec (onDrop [notes]) w) = Some photo /\
  currentFile (exec (onFileSelected [notes]) w) = None /\
  count is_change (log (exec (onFileSelected [notes]) w)) = count is_change (log w) + 1.
Proof.
  intros w. split; [repeat split|].
  destruct (rejected_file_ignored_by_drop_clears_from_input w [notes] notes
              eq_refl eq_refl eq_refl) as ((Hd & _) & _ & Hn & Hc).
  split; [reflexivity|]. split; [exact Hd|]. split; [exact Hn | exact Hc].
Defined.

(** C1 as stated fails on the native input: with [accept: [ 'image/*' ]] and
    the jpeg selected, a [text/plain] file from the native input is
    rejected by the filter, and the selection is lost. *)
Lemma rejected_file_from_input_loses_selection :
  let w := exec (onFileSelected [photo]) (construct true images_only) in
  currentFile w = Some photo /\
  isAllowedType (accept w) (file_type notes) = false /\
  currentFile (exec (onFileSelected [notes]) w) = None /\
  ~ unchanged_and_silent w (exec (onFileSelected [notes]) w).
Proof.
  intros w. repeat split.
  intros [H _]. vm_compute in H. discriminate.
Qed.




(** *** The preview *)

Lemma indexOf_image (rest : string) : JS.indexOf ("image/" ++ rest) "image/" = 0%Z.
Proof. unfold JS.indexOf. simpl. destruct rest; reflexivity. Qed.

(** What [loadAndGetImageUrl] leaves behind when it starts to read the
    selected file [f]. *)
Lemma loadAndGetImageUrl_reads (w : widget) (f : File) :
  currentFile w = Some f ->
  qualifies (thumbnailSizeLimit w) f = true ->
  loadAndGetImageUrl w =
  (Unsettled (nextTask w),
   set_log (log w ++ [ReadAsDataURL (nextTask w) f])
     (set_tasks (tasks w ++ [(nextTask w, AwaitingRead f)]) (S (nextTask w)) w)).
Proof.
  intros Hc Hq. unfold loadAndGetImageUrl, bind, gets. now rewrite Hc, Hq.
Qed.

Lemma loadAndGetImageUrl_rejects (w : widget) (f : File) :
  currentFile w = Some f ->
  qualifies (thumbnailSizeLimit w) f = false ->
  loadAndGetImageUrl w = (Rejected, w).
Proof.
  intros Hc Hq. unfold loadAndGetImageUrl, bind, gets. now rewrite Hc, Hq.
Qed.

Lemma qualifies_image (limit : Z) (f : File) (sub : string) :
  file_type f = "image/" ++ sub ->
  qualifies limit f = (file_size f <? limit * 1024 * 1024)%Z.
Proof. intros H. unfold qualifies. now rewrite H, indexOf_image. Qed.

(** C6.  The size test of the preview is strict, in bytes.  Take two files
    whose type starts with ["image/"], one of exactly
    [thumbnailSizeLimit * 1024 * 1024] bytes and one a byte smaller.  With
    the first selected, [loadAndGetImageUrl] hands back a rejected promise
    at once and the widget is untouched: no read is started.  With the
    second selected, the read is started and the promise is left
    unsettled.  In general a file of an image type qualifies exactly when
    its size is below the bound. *)
Theorem thumbnail_size_bound_is_strict
    (w : widget) (at_bound under : File) (sub sub' : string)
    (Htype : file_type at_bound = "image/" ++ sub)
    (Hsize : file_size at_bound = (thumbnailSizeLimit w * 1024 * 1024)%Z)
    (Htype' : file_type under = "image/" ++ sub')
    (Hsize' : file_size under = (thumbnailSizeLimit w * 1024 * 1024 - 1)%Z) :
  let w_at := set_currentFile (Some at_bound) w in
  let w_under := set_currentFile (Some under) w in
  loadAndGetImageUrl w_at = (Rejected, w_at) /\
  loadAndGetImageUrl w_under =
    (Unsettled (nextTask w),
     set_log (log w ++ [ReadAsDataURL (nextTask w) under])
       (set_tasks (tasks w ++ [(nextTask w, AwaitingRead under)]) (S (nextTask w))
          w_under)) /\
  (forall f rest,
     file_type f = "image/" ++ rest ->
     qualifies (thumbnailSizeLimit w) f =
     (file_size f <? thumbnailSizeLimit w * 1024 * 1024)%Z).
Proof.
  intros w_at w_under. split; [|split].
  - apply (loadAndGetImageUrl_rejects w_at at_bound); [reflexivity|].
    change (thumbnailSizeLimit w_at) with (thumbnailSizeLimit w).
    rewrite (qualifies_image _ _ _ Htype), Hsize. apply Z.ltb_irrefl.
  - rewrite (loadAndGetImageUrl_reads w_under under); [reflexivity | reflexivity |].
    change (thumbnailSizeLimit w_under) with (thumbnailSizeLimit w).
    rewrite (qualifies_image _ _ _ Htype'), Hsize'. apply Z.ltb_lt. lia.
  - intros f rest H. now apply (qualifies_image _ _ rest).
Qed.

Lemma thumbnail_size_bound_is_strict_witness :
  let w := construct true images_only in
  let at_bound := mkFile 3 "big.png" "image/png" (20 * 1024 * 1024) in
  let under := mkFile 4 "fits.png" "image/png" (20 * 1024 * 1024 - 1) in
  (file_type at_bound = "image/" ++ "png" /\
   file_size at_bound = (thumbnailSizeLimit w * 1024 * 1024)%Z /\
   file_type under = "image/" ++ "png" /\
   file_size under = (thumbnailSizeLimit w * 1024 * 1024 - 1)%Z) /\
  fst (loadAndGetImageUrl (set_currentFile (Some at_bound) w)) = Rejected /\
  fst (loadAndGetImageUrl (set_currentFile (Some under) w)) = Unsettled 0.
Proof.
  intros w at_bound under. split; [repeat split|].
  destruct (thumbnail_size_bound_is_strict w at_bound under "png" "png"
              eq_refl eq_refl eq_refl eq_refl) as (Hat & Hunder & _).
  split; [now rewrite Hat | now rewrite Hunder].
Defined.

Example file_at_the_bound_is_rejected :
  let big := mkFile 3 "big.png" "image/png" (20 * 1024 * 1024) in
  let w := exec (setValue (Some big)) (construct true images_only) in
  fst (loadAndGetImageUrl w) = Rejected /\ tasks w = [].
Proof. split; reflexivity. Qed.

Example file_one_byte_under_is_read :
  let big := mkFile 3 "big.png" "image/png" (20 * 1024 * 1024 - 1) in
  let w := exec (setValue (Some big)) (construct true images_only) in
  fst (loadAndGetImageUrl w) = Unsettled 1 /\ tasks w = [(0, AwaitingRead big)].
Proof. split; reflexivity. Qed.

(** *** Unsettled deferreds *)

Lemma length_replace_task (id : nat) (t : task) (l : list (nat * task)) :
  List.length (replace_task id t l) = List.length l.
Proof.
  induction l as [|[i t0] l IH]; simpl; [reflexivity|].
  destruct (Nat.eqb i id); simpl; [reflexivity | now rewrite IH].
Qed.

Lemma ids_replace_task (id : nat) (t : task) (l : list (nat * task)) :
  map fst (replace_task id t l) = map fst l.
Proof.
  induction l as [|[i t0] l IH]; simpl; [reflexivity|].
  destruct (Nat.eqb i id); simpl; [reflexivity | now rewrite IH].
Qed.

Lemma find_replace_task (id : nat) (t t0 : task) (l : list (nat * task)) :
  find_task id l = Some t0 -> find_task id (replace_task id t l) = Some t.
Proof.
  induction l as [|[i t1] l IH]; simpl; [discriminate|].
  destruct (Nat.eqb i id) eqn:E; simpl; rewrite E; [reflexivity | exact IH].
Qed.

Lemma length_remove_task (id : nat) (t : task) (l : list (nat * task)) :
  find_task id l = Some t -> S (List.length (remove_task id l)) = List.length l.
Proof.
  induction l as [|[i t0] l IH]; simpl; [discriminate|].
  destruct (Nat.eqb i id); simpl; [reflexivity|].
  intros H. now rewrite IH.
Qed.

Lemma ids_remove_task (id i : nat) (l : list (nat * task)) :
  In i (map fst (remove_task id l)) -> In i (map fst l).
Proof.
  induction l as [|[j t0] l IH]; simpl; [tauto|].
  destruct (Nat.eqb j id); simpl; [now right|].
  intros [H|H]; [now left | right; now apply IH].
Qed.

Lemma find_task_none (id : nat) (l : list (nat * task)) :
  ~ In id (map fst l) -> find_task id l = None.
Proof.
  induction l as [|[i t] l IH]; simpl; [reflexivity|].
  intros H. destruct (Nat.eqb_spec i id) as [->|Hne]; [tauto|].
  apply IH. tauto.
Qed.

Lemma find_task_last (id : nat) (t : task) (l : list (nat * task)) :
  ~ In id (map fst l) -> find_task id (l ++ [(id, t)]) = Some t.
Proof.
  induction l as [|[i t0] l IH]; simpl.
  - now rewrite Nat.eqb_refl.
  - intros H. destruct (Nat.eqb_spec i id) as [->|Hne]; [tauto|].
    apply IH. tauto.
Qed.

Lemma nodup_remove_task (id : nat) (l : list (nat * task)) :
  NoDup (map fst l) ->
  NoDup (map fst (remove_task id l)) /\
  (In id (map fst l) -> ~ In id (map fst (remove_task id l))).
Proof.
  induction l as [|[i t] l IH]; simpl; intros H.
  - split; [constructor | tauto].
  - inversion H as [|? ? Hni Hnd]; subst.
    destruct (Nat.eqb_spec i id) as [->|Hne]; simpl.
    + split; [assumption | intros _; assumption].
    + destruct (IH Hnd) as [IH1 IH2]. split.
      * constructor; [|assumption].
        intros Hin. apply Hni. now apply ids_remove_task in Hin.
      * intros [E|Hin]; [contradiction|].
        intros [E|Hin']; [contradiction | now apply IH2].
Qed.

Lemma find_task_in (id : nat) (t : task) (l : list (nat * task)) :
  find_task id l = Some t -> In id (map fst l).
Proof.
  induction l as [|[i t0] l IH]; simpl; [discriminate|].
  destruct (Nat.eqb_spec i id) as [->|Hne]; [now left | right; now apply IH].
Qed.

(** *** The busy state *)

Ltac open_widget w :=
  destruct w as [sup btn acc tgt lim off cur clr bs ts nxt lg held]; simpl in *.

Lemma refresh_preview_balanced : preserves balanced refresh_preview.
Proof.
  intros w H. open_widget w.
  unfold refresh_preview, loadAndGetImageUrl, readAsDataURL, on_rejected, when,
    bind, gets, say, modify, ret; simpl.
  destruct cur as [f|], tgt; simpl; try destruct (qualifies lim f); simpl;
    count_tac.
Qed.

Lemma reader_onload_balanced (id : nat) (url : string) :
  preserves balanced (reader_onload id url).
Proof.
  intros w H. open_widget w.
  unfold reader_onload, bind, gets, say, modify, ret; simpl.
  destruct (find_task id ts) as [[f|u]|]; simpl; try assumption.
  unfold balanced in *; simpl in *. rewrite length_replace_task. count_tac.
Qed.

Lemma img_onload_balanced (id : nat) (nw nh : Z) (complete : bool) :
  preserves balanced (img_onload id nw nh complete).
Proof.
  intros w H. open_widget w.
  unfold img_onload, on_rejected, on_resolved, bind, gets, say, modify, ret; simpl.
  destruct (find_task id ts) as [[f|u]|] eqn:E; simpl; try assumption.
  apply length_remove_task in E.
  destruct (bad_decode nw nh complete); simpl; count_tac.
Qed.

(** Everything down to the refresh of the preview. *)
Ltac unfold_handlers :=
  unfold step, run, onFileSelected, onDrop, onDragLeave, info_changed,
    onInfoChange, connect, setValue, emit_change, updateUI,
    SelectFileInputWidget_updateUI, setValue_nested, setValue_with,
    emit_change_with, updateUI_with, SelectFileInputWidget_updateUI_with,
    info_setValue, getFilename, setDisabled, SelectFileInputWidget_setDisabled,
    Widget_setDisabled, isDisabled;
  cbv beta.

Lemma step_balanced (a : action) : preserves balanced (step a).
Proof.
  destruct a; simpl;
    try apply reader_onload_balanced; try apply img_onload_balanced;
    unfold_handlers;
    preserve_with ltac:(first [apply refresh_preview_balanced | by_fields count_tac]).
Qed.

Lemma construct_balanced (supported : bool) (cfg : config) :
  balanced (construct supported cfg).
Proof.
  destruct cfg as [acc [|] [|c ns] [|] bo [|] lim], supported; reflexivity.
Qed.

Lemma run_balanced (supported : bool) (cfg : config) (l : list action) :
  balanced (exec (run l) (construct supported cfg)).
Proof.
  apply (preserves_forEach balanced l step step_balanced), construct_balanced.
Qed.

(** *** Identifiers of deferreds *)

Lemma refresh_preview_fresh_ids : preserves fresh_ids refresh_preview.
Proof.
  intros w [Hnd Hlt]. open_widget w.
  unfold refresh_preview, loadAndGetImageUrl, readAsDataURL, on_rejected, when,
    bind, gets, say, modify, ret; simpl.
  destruct cur as [f|], tgt; simpl; try (split; assumption).
  destruct (qualifies lim f); simpl; [|split; assumption].
  unfold fresh_ids; simpl. rewrite map_app; simpl. split.
  - apply NoDup_app; [assumption | repeat constructor; simpl; tauto |].
    intros i Hi [E|[]]. specialize (Hlt i Hi). lia.
  - intros i Hi. apply in_app_or in Hi. destruct Hi as [Hi|[E|[]]]; [|lia].
    specialize (Hlt i Hi). lia.
Qed.

Lemma reader_onload_fresh_ids (id : nat) (url : string) :
  preserves fresh_ids (reader_onload id url).
Proof.
  intros w H. open_widget w.
  unfold reader_onload, bind, gets, say, modify, ret; simpl.
  destruct (find_task id ts) as [[f|u]|]; simpl; try assumption.
  unfold fresh_ids in *; simpl in *. now rewrite ids_replace_task.
Qed.

Lemma img_onload_fresh_ids (id : nat) (nw nh : Z) (complete : bool) :
  preserves fresh_ids (img_onload id nw nh complete).
Proof.
  intros w [Hnd Hlt]. open_widget w.
  unfold img_onload, on_rejected, on_resolved, bind, gets, say, modify, ret; simpl.
  destruct (find_task id ts) as [[f|u]|] eqn:E; simpl; try (split; assumption).
  destruct (bad_decode nw nh complete); simpl;
    (split; simpl;
     [apply nodup_remove_task, Hnd
     | intros i Hi; apply Hlt; now apply ids_remove_task in Hi]).
Qed.

Lemma step_fresh_ids (a : action) : preserves fresh_ids (step a).
Proof.
  destruct a; simpl;
    try apply reader_onload_fresh_ids; try apply img_onload_fresh_ids;
    unfold_handlers;
    preserve_with ltac:(first [apply refresh_preview_fresh_ids
                              | by_fields ltac:(assumption)]).
Qed.

Lemma run_fresh_ids (supported : bool) (cfg : config) (l : list action) :
  fresh_ids (exec (run l) (construct supported cfg)).
Proof.
  apply (preserves_forEach fresh_ids l step step_fresh_ids).
  destruct cfg as [acc [|] [|c ns] [|] bo [|] lim], supported;
    (split; simpl; [constructor | tauto]).
Qed.

(** *** One preview attempt *)

Local Open Scope list_scope.

Lemma remove_added_task (id : nat) (t t' : task) (l : list (nat * task)) :
  ~ In id (map fst l) ->
  remove_task id (replace_task id t' (l ++ [(id, t)])) = l.
Proof.
  induction l as [|[i t0] l IH]; simpl.
  - now rewrite Nat.eqb_refl; simpl; rewrite Nat.eqb_refl.
  - intros H. destruct (Nat.eqb_spec i id) as [->|Hne]; [tauto|].
    simpl. destruct (Nat.eqb_spec i id) as [E|_]; [contradiction|].
    f_equal. apply IH. tauto.
Qed.

(** The parent [updateUI] when the file stays: the info field is given
    its name. *)
Lemma parent_updateUI_quiet (w : widget) (f : File) :
  currentFile w = Some f ->
  (file_name f =? "")%string && negb (infoValue w =? "")%string = false ->
  exec SelectFileInputWidget_updateUI w =
  set_log (log w ++ [InfoSetValue (file_name f)]) (set_infoValue (file_name f) w).
Proof.
  intros Hc Hq.
  unfold exec, SelectFileInputWidget_updateUI, SelectFileInputWidget_updateUI_with,
    getFilename, bind, gets, ret. cbv beta iota. rewrite Hc.
  now rewrite (info_setValue_quiet _ _ _ Hq).
Qed.

(** The parent [updateUI] when the file has no name and the info field
    holds something: the field is emptied, and [onInfoChange] calls
    [setValue( null )]. *)
Lemma parent_updateUI_loud (w : widget) (f : File) :
  currentFile w = Some f ->
  (file_name f =? "")%string && negb (infoValue w =? "")%string = true ->
  exec SelectFileInputWidget_updateUI w =
  exec (setValue_nested None)
    (set_infoValue "" (set_log (log w ++ [InfoSetValue ""%string]) w)).
Proof.
  intros Hc Hq. apply andb_true_iff in Hq. destruct Hq as [Hn Hi].
  apply String.eqb_eq in Hn. apply negb_true_iff in Hi.
  unfold exec, SelectFileInputWidget_updateUI, SelectFileInputWidget_updateUI_with,
    getFilename, bind, gets, ret. cbv beta iota. rewrite Hc, Hn.
  now rewrite (info_setValue_loud _ _ Hi).
Qed.

(** The parent [updateUI] without a file: the info field is given ['']; if
    that empties it, the [setValue( null )] of [onInfoChange] finds no file
    and does nothing. *)
Lemma parent_updateUI_empty (w : widget) :
  currentFile w = None ->
  exec SelectFileInputWidget_updateUI w =
  set_log (log w ++ [InfoSetValue ""%string]) (set_infoValue "" w).
Proof.
  intros Hc.
  unfold exec, SelectFileInputWidget_updateUI, SelectFileInputWidget_updateUI_with,
    getFilename, bind, gets, ret. cbv beta iota. rewrite Hc.
  destruct (infoValue w =? "")%string eqn:Hi.
  - rewrite info_setValue_quiet; [reflexivity | now rewrite Hi].
  - rewrite (info_setValue_loud _ _ Hi).
    unfold setValue_nested, setValue_with, bind, gets.
    destruct w; simpl in *. now rewrite Hc.
Qed.

(** The refresh of the preview with a file that cannot be previewed: busy,
    the fallback icon, and busy no more, all at once. *)
Lemma refresh_preview_rejects_at_once (w : widget) (f : File) :
  showDropTarget w = true -> currentFile w = Some f ->
  qualifies (thumbnailSizeLimit w) f = false ->
  exec refresh_preview w =
  set_log (log w ++ tl (refreshed f [ThumbnailAppendIcon "attachment"; PopPending])) w.
Proof.
  intros Ht Hc Hq. open_widget w. subst.
  unfold exec, refresh_preview, loadAndGetImageUrl, readAsDataURL, on_rejected,
    when, bind, gets, say, modify, ret; simpl.
  rewrite Hq; simpl. unfold set_log; simpl.
  now rewrite <- !app_assoc.
Qed.

(** The refresh of the preview with a file that can be previewed: busy, and
    a read under a fresh deferred. *)
Lemma refresh_preview_starts_read (w : widget) (f : File) :
  showDropTarget w = true -> currentFile w = Some f ->
  qualifies (thumbnailSizeLimit w) f = true ->
  exec refresh_preview w =
  set_log (log w ++ tl (refreshed f [ReadAsDataURL (nextTask w) f]))
    (set_tasks (tasks w ++ [(nextTask w, AwaitingRead f)]) (S (nextTask w)) w).
Proof.
  intros Ht Hc Hq. open_widget w. subst.
  unfold exec, refresh_preview, loadAndGetImageUrl, readAsDataURL, on_rejected,
    when, bind, gets, say, modify, ret; simpl.
  rewrite Hq; simpl. unfold set_log, set_tasks; simpl.
  now rewrite <- !app_assoc.
Qed.

(** The refresh of the preview without a file. *)
Lemma refresh_preview_cleared (w : widget) :
  showDropTarget w = true -> currentFile w = None ->
  exec refresh_preview w = set_log (log w ++ tl emptied) w.
Proof.
  intros Ht Hc. open_widget w. subst.
  unfold exec, refresh_preview, when, bind, gets, say, modify, ret, emptied; simpl.
  unfold set_log; simpl. now rewrite <- !app_assoc.
Qed.

(** On a widget that shows previews, a selected file unselects itself in
    [updateUI] exactly when it has no name and the info field holds
    something. *)
Lemma unselects_itself_shown (w : widget) (f : File) :
  shows_preview w ->
  unselects_itself w f = (file_name f =? "")%string && negb (infoValue w =? "")%string.
Proof.
  intros (Hb & Hs & _). unfold unselects_itself. now rewrite Hb, Hs.
Qed.

(** [updateUI] with a file that cannot be previewed. *)
Lemma updateUI_rejects_at_once (w : widget) (f : File) :
  shows_preview w -> currentFile w = Some f ->
  unselects_itself w f = false ->
  qualifies (thumbnailSizeLimit w) f = false ->
  exec updateUI w =
  set_log (log w ++ refreshed f [ThumbnailAppendIcon "attachment"; PopPending])
    (set_infoValue (file_name f) w).
Proof.
  intros Hp Hc Hu Hq. rewrite (unselects_itself_shown w f Hp) in Hu.
  destruct Hp as (Hb & Hs & Ht).
  rewrite (updateUI_runs w Hb Hs), (parent_updateUI_quiet w f Hc Hu).
  rewrite (refresh_preview_rejects_at_once _ f);
    [| destruct w; assumption ..].
  destruct w; simpl. unfold set_log; simpl. now rewrite <- !app_assoc.
Qed.

(** [updateUI] with a file that can be previewed. *)
Lemma updateUI_starts_read (w : widget) (f : File) :
  shows_preview w -> currentFile w = Some f ->
  unselects_itself w f = false ->
  qualifies (thumbnailSizeLimit w) f = true ->
  exec updateUI w =
  set_log (log w ++ refreshed f [ReadAsDataURL (nextTask w) f])
    (set_tasks (tasks w ++ [(nextTask w, AwaitingRead f)]) (S (nextTask w))
       (set_infoValue (file_name f) w)).
Proof.
  intros Hp Hc Hu Hq. rewrite (unselects_itself_shown w f Hp) in Hu.
  destruct Hp as (Hb & Hs & Ht).
  rewrite (updateUI_runs w Hb Hs), (parent_updateUI_quiet w f Hc Hu).
  rewrite (refresh_preview_starts_read _ f);
    [| destruct w; assumption ..].
  destruct w; simpl. unfold set_log, set_tasks; simpl. now rewrite <- !app_assoc.
Qed.

(** Without a selected file nothing is begun: the busy state, the
    deferreds and the selection stay as they are. *)
Ltac no_attempt_tac :=
  match goal with H : _ /\ _ /\ _ /\ _ |- _ => destruct H as (? & ? & ? & ?) end;
  subst; repeat split; count_tac.

Lemma refresh_preview_no_attempt (n m : nat) (waiting : list (nat * task)) :
  preserves (fun w => currentFile w = None /\ count is_push (log w) = n /\
                      count is_pop (log w) = m /\ tasks w = waiting)
    refresh_preview.
Proof.
  intros w (Hc & Hn & Hm & Ht). open_widget w. subst.
  unfold refresh_preview, when, bind, gets, say, modify, ret; simpl.
  destruct tgt; simpl; repeat split; count_tac.
Qed.

Lemma updateUI_nested_no_attempt (n m : nat) (waiting : list (nat * task)) :
  preserves (fun w => currentFile w = None /\ count is_push (log w) = n /\
                      count is_pop (log w) = m /\ tasks w = waiting)
    (updateUI_with (fun _ => ret tt)).
Proof.
  unfold updateUI_with, SelectFileInputWidget_updateUI_with, info_setValue,
    getFilename.
  preserve_with ltac:(first [ apply refresh_preview_no_attempt
                            | by_fields no_attempt_tac ]).
Qed.

(** The [setValue( null )] of [onInfoChange] begins no preview. *)
Lemma setValue_nested_no_attempt (w : widget) :
  let w' := exec (setValue_nested None) w in
  currentFile w' = None /\
  count is_push (log w') = count is_push (log w) /\
  count is_pop (log w') = count is_pop (log w) /\
  tasks w' = tasks w.
Proof.
  intros w'. subst w'. destruct (currentFile w) as [g|] eqn:E.
  - assert (Hnew : same_value (currentFile w) None = false) by now rewrite E.
    unfold setValue_nested. rewrite (setValue_with_new _ _ _ Hnew).
    rewrite emit_change_with_unfold.
    set (w0 := set_log _ (set_currentFile None w)).
    pose proof (updateUI_nested_no_attempt (count is_push (log w))
                  (count is_pop (log w)) (tasks w) w0) as Hu.
    destruct Hu as (Hc & Hn & Hm & Ht);
      [destruct w; repeat split; simpl; count_tac|].
    change (snd (updateUI_with (fun _ => ret tt) w0))
      with (exec (updateUI_with (fun _ => ret tt)) w0) in Hc, Hn, Hm, Ht.
    destruct (exec (updateUI_with (fun _ => ret tt)) w0); simpl in *.
    assert (Hz : forall (p : effect -> bool) (bs : list subscriber),
               (forall s, p (Delivered s None) = false) ->
               count p (map (fun s => Delivered s None) bs) = 0).
    { intros p bs Hp. induction bs as [|s bs IH]; [reflexivity|].
      unfold count in *. simpl. now rewrite Hp. }
    rewrite !count_app, !Hz by reflexivity. repeat split; try assumption; lia.
  - assert (Hsame : same_value (currentFile w) None = true) by now rewrite E.
    unfold exec, setValue_nested, setValue_with, bind, gets. rewrite Hsame. simpl.
    now repeat split.
Qed.

(** [updateUI] with a file that unselects itself: the file is gone before
    the preview is looked at, and no attempt is made. *)
Lemma updateUI_unselects (w : widget) (f : File) :
  shows_preview w -> currentFile w = Some f ->
  unselects_itself w f = true ->
  currentFile (exec updateUI w) = None /\
  count is_push (log (exec updateUI w)) = count is_push (log w) /\
  count is_pop (log (exec updateUI w)) = count is_pop (log w) /\
  tasks (exec updateUI w) = tasks w.
Proof.
  intros Hp Hc Hu. rewrite (unselects_itself_shown w f Hp) in Hu.
  destruct Hp as (Hb & Hs & Ht).
  rewrite (updateUI_runs w Hb Hs), (parent_updateUI_loud w f Hc Hu).
  set (w0 := set_infoValue "" _).
  pose proof (setValue_nested_no_attempt w0) as Hn. cbv zeta in Hn.
  assert (H0 : count is_push (log w0) = count is_push (log w) /\
               count is_pop (log w0) = count is_pop (log w) /\
               tasks w0 = tasks w)
    by (subst w0; destruct w; simpl; repeat split; count_tac).
  destruct H0 as (Hpush & Hpop & Hts). rewrite Hpush, Hpop, Hts in Hn.
  apply (refresh_preview_no_attempt _ _ _ _ Hn).
Qed.

(** The bytes arrive: the probe image is given its source. *)
Lemma reader_onload_probes (w : widget) (id : nat) (f : File) (url : string) :
  find_task id (tasks w) = Some (AwaitingRead f) ->
  exec (reader_onload id url) w =
  set_log (log w ++ [ImgSetSrc id url])
    (set_tasks (replace_task id (AwaitingDecode url) (tasks w)) (nextTask w) w).
Proof.
  intros H. open_widget w.
  unfold exec, reader_onload, bind, gets, say, modify, ret; simpl.
  now rewrite H.
Qed.

(** The probe image has loaded: the deferred settles, one way or the
    other, and the busy state ends. *)
Lemma img_onload_settles
    (w : widget) (id : nat) (url : string) (nw nh : Z) (complete : bool) :
  find_task id (tasks w) = Some (AwaitingDecode url) ->
  exec (img_onload id nw nh complete) w =
  set_log (log w ++ settled (bad_decode nw nh complete) url)
    (set_tasks (remove_task id (tasks w)) (nextTask w) w).
Proof.
  intros H. open_widget w.
  unfold exec, img_onload, on_rejected, on_resolved, bind, gets, say, modify, ret;
    simpl.
  rewrite H. unfold settled.
  destruct (bad_decode nw nh complete); simpl;
    unfold set_log; simpl; now rewrite <- !app_assoc.
Qed.

(** A deferred that is gone hears nothing. *)
Lemma img_onload_unknown
    (w : widget) (id : nat) (nw nh : Z) (complete : bool) :
  find_task id (tasks w) = None ->
  exec (img_onload id nw nh complete) w = w.
Proof.
  intros H. open_widget w.
  unfold exec, img_onload, bind, gets; simpl. now rewrite H.
Qed.

Lemma unused_id (w : widget) : fresh_ids w -> ~ In (nextTask w) (map fst (tasks w)).
Proof. intros [_ Hlt] Hin. specialize (Hlt _ Hin). lia. Qed.

(** C7.  On a widget that shows previews, refreshing with a selected file
    [f] sets the busy state once ([PushPending]).  If the file does not
    qualify the promise is rejected on the spot: the fallback icon is shown
    and busy is cleared, once.  If it qualifies, a read starts and busy
    stays; when the bytes have come and the probe image has loaded, the
    attempt ends with exactly one [PopPending], after the thumbnail on
    success and after the fallback icon on failure, and the deferred is
    gone, so that no later event can clear busy again for it.  (A file that
    unselects itself is gone before the preview is looked at: no attempt
    begins, and busy is neither set nor cleared.)  A probe that reports zero
    width, zero height or an incomplete image is a failure: the icon, never
    the thumbnail.  Whenever a deferred settles, in any state, one
    [PopPending] is logged and one deferred goes; and over any run of a
    constructed widget the busy states set equal those cleared plus the
    attempts still unsettled. *)
Theorem preview_attempt_clears_busy_once
    (w : widget) (f : File)
    (Hpreview : shows_preview w)
    (Hcur : currentFile w = Some f)
    (Hids : fresh_ids w) :
  let id := nextTask w in
  let w1 := exec updateUI w in
  let fallback := [ThumbnailAppendIcon "attachment"; PopPending] in
  (if unselects_itself w f then
     currentFile w1 = None /\
     count is_push (log w1) = count is_push (log w) /\
     count is_pop (log w1) = count is_pop (log w) /\
     tasks w1 = tasks w
   else if qualifies (thumbnailSizeLimit w) f then
     log w1 = log w ++ refreshed f [ReadAsDataURL id f] /\
     tasks w1 = tasks w ++ [(id, AwaitingRead f)] /\
     forall url nw nh complete,
       let w2 := exec (reader_onload id url) w1 in
       let w3 := exec (img_onload id nw nh complete) w2 in
       log w3 = log w1 ++ ImgSetSrc id url :: settled (bad_decode nw nh complete) url /\
       count is_push (log w3) = count is_push (log w) + 1 /\
       count is_pop (log w3) = count is_pop (log w) + 1 /\
       tasks w3 = tasks w /\
       (forall nw' nh' complete', exec (img_onload id nw' nh' complete') w3 = w3)
   else
     log w1 = log w ++ refreshed f fallback /\
     count is_push (log w1) = count is_push (log w) + 1 /\
     count is_pop (log w1) = count is_pop (log w) + 1 /\
     tasks w1 = tasks w) /\
  (forall url n complete, settled (bad_decode 0 n complete) url = fallback) /\
  (forall url n complete, settled (bad_decode n 0 complete) url = fallback) /\
  (forall url n n', settled (bad_decode n n' false) url = fallback) /\
  (forall url n n',
     n <> 0%Z -> n' <> 0%Z ->
     settled (bad_decode n n' true) url =
     [ThumbnailBackground ("url( " ++ url ++ " )"); PopPending]) /\
  (forall w' id' url nw nh complete,
     find_task id' (tasks w') = Some (AwaitingDecode url) ->
     let w'' := exec (img_onload id' nw nh complete) w' in
     log w'' = log w' ++ settled (bad_decode nw nh complete) url /\
     count is_pop (log w'') = count is_pop (log w') + 1 /\
     S (List.length (tasks w'')) = List.length (tasks w')) /\
  (forall supported cfg l, balanced (exec (run l) (construct supported cfg))).
Proof.
  intros id w1 fallback. pose proof (unused_id w Hids) as Hnew.
  split; [|split; [|split; [|split; [|split; [|split]]]]].
  - destruct (unselects_itself w f) eqn:Hu;
      [exact (updateUI_unselects w f Hpreview Hcur Hu)|].
    destruct (qualifies (thumbnailSizeLimit w) f) eqn:Hq.
    + subst w1 id. rewrite (updateUI_starts_read w f Hpreview Hcur Hu Hq).
      set (w1 := set_log _ _).
      assert (Hl1 : log w1 = log w ++ refreshed f [ReadAsDataURL (nextTask w) f])
        by (destruct w; reflexivity).
      assert (Ht1 : tasks w1 = tasks w ++ [(nextTask w, AwaitingRead f)])
        by (destruct w; reflexivity).
      split; [exact Hl1|]. split; [exact Ht1|].
      intros url nw nh complete w2 w3.
      assert (Hf1 : find_task (nextTask w) (tasks w1) = Some (AwaitingRead f))
        by (rewrite Ht1; now apply find_task_last).
      assert (H2 : w2 = set_log (log w1 ++ [ImgSetSrc (nextTask w) url])
                     (set_tasks (replace_task (nextTask w) (AwaitingDecode url) (tasks w1))
                        (nextTask w1) w1))
        by (subst w2; now apply (reader_onload_probes _ _ f)).
      assert (Hf2 : find_task (nextTask w) (tasks w2) = Some (AwaitingDecode url)).
      { rewrite H2. destruct w1; simpl in *.
        now apply (find_replace_task _ _ (AwaitingRead f)). }
      assert (H3 : w3 = set_log (log w2 ++ settled (bad_decode nw nh complete) url)
                     (set_tasks (remove_task (nextTask w) (tasks w2)) (nextTask w2) w2))
        by (subst w3; now apply img_onload_settles).
      assert (Hl3 : log w3 = log w1 ++ ImgSetSrc (nextTask w) url
                               :: settled (bad_decode nw nh complete) url).
      { rewrite H3, H2. destruct w1; simpl. now rewrite <- app_assoc. }
      assert (Ht3 : tasks w3 = tasks w).
      { rewrite H3, H2. destruct w1; simpl in *. rewrite Ht1.
        now apply remove_added_task. }
      split; [exact Hl3|].
      split; [|split; [|split; [exact Ht3|]]].
      * rewrite Hl3, Hl1. unfold settled. destruct (bad_decode nw nh complete); count_tac.
      * rewrite Hl3, Hl1. unfold settled. destruct (bad_decode nw nh complete); count_tac.
      * intros nw' nh' complete'. apply img_onload_unknown.
        rewrite Ht3. now apply find_task_none.
    + subst w1. rewrite (updateUI_rejects_at_once w f Hpreview Hcur Hu Hq).
      destruct w; simpl. repeat split; count_tac.
  - intros url n complete. reflexivity.
  - intros url n complete. unfold bad_decode. simpl. now rewrite orb_true_r.
  - intros url n n'. unfold bad_decode. simpl. now rewrite orb_true_r.
  - intros url n n' Hn Hn'. unfold bad_decode.
    apply Z.eqb_neq in Hn, Hn'. now rewrite Hn, Hn'.
  - intros w' id' url nw nh complete H w''. subst w''.
    rewrite (img_onload_settles _ _ _ _ _ _ H).
    split; [destruct w'; reflexivity|]. split.
    + destruct w'; simpl. unfold settled.
      destruct (bad_decode nw nh complete); count_tac.
    + destruct w'; simpl in *. now apply (length_remove_task _ (AwaitingDecode url)).
  - apply run_balanced.
Qed.

Lemma preview_attempt_clears_busy_once_witness :
  let w := set_currentFile (Some photo) (construct true images_only) in
  (shows_preview w /\ currentFile w = Some photo /\ fresh_ids w) /\
  let w3 := exec (img_onload 0 0 600 true)
              (exec (reader_onload 0 "data:image/jpeg;base64,AAAA") (exec updateUI w)) in
  count is_push (log w3) = count is_push (log w) + 1 /\
  count is_pop (log w3) = count is_pop (log w) + 1 /\
  tasks w3 = tasks w.
Proof.
  intros w.
  assert (Hp : shows_preview w) by (repeat split).
  assert (Hi : fresh_ids w) by (split; [constructor | intros ? []]).
  split; [repeat split; [apply Hi | apply Hi]|].
  destruct (preview_attempt_clears_busy_once w photo Hp eq_refl Hi) as (Hq & _).
  change (unselects_itself w photo) with false in Hq.
  change (qualifies (thumbnailSizeLimit w) photo) with true in Hq.
  destruct Hq as (_ & _ & Hrun).
  destruct (Hrun "data:image/jpeg;base64,AAAA"%string 0%Z 600%Z true)
    as (_ & Hpush & Hpop & Ht & _).
  split; [exact Hpush | split; [exact Hpop | exact Ht]].
Defined.

Example zero_width_decode_shows_the_icon :
  let w := exec (run [FileSelected [photo];
                      ReaderOnload 0 "data:image/jpeg;base64,AAAA";
                      ImgOnload 0 0 600 true])
             (construct true images_only) in
  since (construct true images_only) w =
  [InputClear; EmitChange (Some photo)] ++
  refreshed photo [ReadAsDataURL 0 photo] ++
  [ImgSetSrc 0 "data:image/jpeg;base64,AAAA";
   ThumbnailAppendIcon "attachment"; PopPending] /\
  tasks w = [].
Proof. split; reflexivity. Qed.

Example good_decode_shows_the_thumbnail :
  let w := exec (run [FileSelected [photo];
                      ReaderOnload 0 "data:image/jpeg;base64,AAAA";
                      ImgOnload 0 800 600 true])
             (construct true images_only) in
  since (construct true images_only) w =
  [InputClear; EmitChange (Some photo)] ++
  refreshed photo [ReadAsDataURL 0 photo] ++
  [ImgSetSrc 0 "data:image/jpeg;base64,AAAA";
   ThumbnailBackground "url( data:image/jpeg;base64,AAAA )"; PopPending] /\
  tasks w = [].
Proof. split; reflexivity. Qed.

(** *** Order of notification and preview *)

Lemma skipn_length_app {A} (l l' : list A) : skipn (List.length l) (l ++ l') = l'.
Proof. induction l as [|x l IH]; simpl; [reflexivity | exact IH]. Qed.

(** The attempt [updateUI] makes for the file [f]. *)
Lemma updateUI_refreshes (w : widget) (f : File) :
  shows_preview w -> currentFile w = Some f ->
  unselects_itself w f = false ->
  log (exec updateUI w) =
  log w ++ refreshed f (if qualifies (thumbnailSizeLimit w) f
                        then [ReadAsDataURL (nextTask w) f]
                        else [ThumbnailAppendIcon "attachment"; PopPending]) /\
  bindings (exec updateUI w) = bindings w /\
  currentFile (exec updateUI w) = Some f.
Proof.
  intros Hp Hc Hu. destruct (qualifies (thumbnailSizeLimit w) f) eqn:Hq.
  - rewrite (updateUI_starts_read w f Hp Hc Hu Hq). destruct w; simpl in *. auto.
  - rewrite (updateUI_rejects_at_once w f Hp Hc Hu Hq). destruct w; simpl in *. auto.
Qed.

(** C8, as the code has it.  When a file with a name that is not, by
    reference, the one selected already is selected on a widget that shows
    previews, [setValue] stores it and enters [emit( 'change' )]; the first
    listener called is the widget's own [updateUI], which starts the
    preview attempt; the listeners the application connected are called
    after that.  So the emission begins before the preview is started, and
    every listener of the application hears of the change after it. *)
Theorem change_emitted_then_preview_then_listeners
    (w : widget) (f : File)
    (Hpreview : shows_preview w)
    (Hnamed : file_name f <> ""%string)
    (Hnew : match currentFile w with
            | Some g => file_ref g <> file_ref f
            | None => True
            end) :
  let w' := exec (setValue (Some f)) w in
  let attempt := if qualifies (thumbnailSizeLimit w) f
                 then [ReadAsDataURL (nextTask w) f]
                 else [ThumbnailAppendIcon "attachment"; PopPending] in
  log w' = log w ++ EmitChange (Some f) :: refreshed f attempt
                 ++ map (fun s => Delivered s (Some f)) (bindings w) /\
  currentFile w' = Some f /\
  precedes is_change is_push (since w w') = true /\
  precedes is_delivery is_push (since w w') = false /\
  (bindings w <> [] -> precedes is_push is_delivery (since w w') = true).
Proof.
  intros w' attempt.
  pose proof (other_reference_is_new _ _ Hnew) as Hother.
  assert (Hlog : log w' = log w ++ EmitChange (Some f) :: refreshed f attempt
                   ++ map (fun s => Delivered s (Some f)) (bindings w) /\
                 currentFile w' = Some f).
  { subst w'. rewrite (setValue_new _ _ Hother), emit_change_unfold.
    set (w0 := set_log _ (set_currentFile (Some f) w)).
    assert (Hp0 : shows_preview w0) by exact Hpreview.
    assert (Hc0 : currentFile w0 = Some f) by reflexivity.
    destruct (updateUI_refreshes w0 f Hp0 Hc0 (named_file_stays w0 f Hnamed))
      as (Hl & Hb & Hc).
    change (thumbnailSizeLimit w0) with (thumbnailSizeLimit w) in Hl.
    change (nextTask w0) with (nextTask w) in Hl.
    change (log w0) with (log w ++ [EmitChange (Some f)]) in Hl.
    fold attempt in Hl.
    destruct (exec updateUI w0) as [sup btn acc tgt lim off cur clr bs ts nxt lg held].
    cbn [log bindings currentFile set_log set_currentFile] in *.
    split; [|exact Hc].
    rewrite Hl, <- !app_assoc. reflexivity. }
  destruct Hlog as [Hlog Hcur].
  split; [exact Hlog|]. split; [exact Hcur|].
  unfold since. rewrite Hlog, skipn_length_app.
  split; [reflexivity|]. split.
  - subst attempt. destruct (qualifies _ f), (bindings w); reflexivity.
  - intros Hb. subst attempt.
    destruct (qualifies _ f), (bindings w); try contradiction; reflexivity.
Qed.

Lemma change_emitted_then_preview_then_listeners_witness :
  let w := exec (connect 1) (construct true images_only) in
  (shows_preview w /\ file_name photo <> ""%string /\ currentFile w = None) /\
  since w (exec (setValue (Some photo)) w) =
  EmitChange (Some photo) :: refreshed photo [ReadAsDataURL 0 photo]
    ++ [Delivered 1 (Some photo)].
Proof.
  intros w.
  assert (Hp : shows_preview w) by (repeat split).
  assert (Hn : file_name photo <> ""%string) by discriminate.
  split; [split; [exact Hp | split; [exact Hn | reflexivity]]|].
  destruct (change_emitted_then_preview_then_listeners w photo Hp Hn I)
    as (Hlog & _).
  unfold since. rewrite Hlog, skipn_length_app. reflexivity.
Defined.

(** C8 as stated fails: a listener connected to a freshly constructed
    widget is called with the new file after [pushPending] and
    [readAsDataURL] have started the preview. *)
Lemma listener_hears_change_after_preview_started :
  let w := exec (connect 1) (construct true images_only) in
  let w' := exec (setValue (Some photo)) w in
  shows_preview w /\
  bindings w = [1] /\
  since w w' =
    [EmitChange (Some photo);
     InfoSetValue "photo.jpg";
     ElementRemoveClass "oo-ui-selectFileInputWidget-empty";
     PushPending;
     ReadAsDataURL 0 photo;
     ElementOffClick;
     Delivered 1 (Some photo)] /\
  ~ listeners_hear_before_preview w w'.
Proof.
  intros w w'. repeat split.
  intros H. vm_compute in H. discriminate.
Qed.

(** *** Selecting the same value twice *)

Lemma refresh_preview_keeps_info (c : value) (i : string) :
  preserves (fun w => currentFile w = c /\ infoValue w = i) refresh_preview.
Proof.
  unfold_methods. preserve_with ltac:(by_fields ltac:(assumption)).
Qed.

(** Inside the [setValue( null )] of [onInfoChange] the info field stays
    empty. *)
Lemma updateUI_nested_settled :
  preserves (fun w => currentFile w = None /\ infoValue w = ""%string)
    (updateUI_with (fun _ => ret tt)).
Proof.
  intros w (Hc & Hi). open_widget w. subst.
  unfold updateUI_with, SelectFileInputWidget_updateUI_with, getFilename,
    info_setValue, bind, gets, say, modify, ret.
  cbn -[refresh_preview].
  destruct (negb btn || negb sup); cbn -[refresh_preview]; [split; reflexivity|].
  apply (refresh_preview_keeps_info None ""%string). split; reflexivity.
Qed.

Lemma setValue_nested_settled (w : widget) :
  infoValue w = ""%string -> infoValue (exec (setValue_nested None) w) = ""%string.
Proof.
  intros Hi. destruct (currentFile w) as [g|] eqn:E.
  - assert (Hnew : same_value (currentFile w) None = false) by now rewrite E.
    unfold setValue_nested. rewrite (setValue_with_new _ _ _ Hnew).
    rewrite emit_change_with_unfold.
    set (w0 := set_log _ (set_currentFile None w)).
    destruct (updateUI_nested_settled w0) as [_ Hu];
      [split; [reflexivity | destruct w; exact Hi]|].
    change (snd (updateUI_with (fun _ => ret tt) w0))
      with (exec (updateUI_with (fun _ => ret tt)) w0) in Hu.
    now destruct (exec (updateUI_with (fun _ => ret tt)) w0).
  - assert (Hsame : same_value (currentFile w) None = true) by now rewrite E.
    unfold exec, setValue_nested, setValue_with, bind, gets. now rewrite Hsame.
Qed.

(** After a file has unselected itself the info field is empty. *)
Lemma setValue_unselected_settles (w : widget) (f : File) :
  same_value (currentFile w) (Some f) = false ->
  unselects_itself w f = true ->
  infoValue (exec (setValue (Some f)) w) = ""%string.
Proof.
  intros Hnew Hu. rewrite (setValue_new _ _ Hnew), emit_change_unfold.
  set (w0 := set_log _ (set_currentFile (Some f) w)).
  assert (Hu0 : unselects_itself w0 f = true) by exact Hu.
  unfold unselects_itself in Hu0.
  apply andb_true_iff in Hu0. destruct Hu0 as [Hu0 Hi].
  apply andb_true_iff in Hu0. destruct Hu0 as [Hu0 Hn].
  apply andb_true_iff in Hu0. destruct Hu0 as [Hb Hs].
  rewrite (updateUI_runs w0 Hb Hs).
  rewrite (parent_updateUI_loud w0 f eq_refl); [|now rewrite Hn, Hi].
  set (w1 := set_infoValue "" _).
  pose proof (setValue_nested_settled w1 eq_refl) as H1.
  destruct (setValue_nested_effect w1) as [Hc1 _].
  pose proof (refresh_preview_keeps_info None ""%string _ (conj Hc1 H1)) as [_ H2].
  change (snd (refresh_preview (exec (setValue_nested None) w1)))
    with (exec refresh_preview (exec (setValue_nested None) w1)) in H2.
  now destruct (exec refresh_preview (exec (setValue_nested None) w1)).
Qed.

(** C3.  Selecting a value other, by reference, than the current one and
    selecting it again.  As a rule the first [setValue] emits one change
    and the second finds the same reference and leaves the widget as it
    is: one change in total.  A file that unselects itself breaks the rule:
    the first call emits the change for the file and, from inside
    [updateUI], a second one for [null], and leaves nothing selected; the
    second call then selects the file and emits a third change.  Selecting
    the value that is, by reference, selected already never emits. *)
Theorem setValue_twice_emits_one_or_three_changes
    (w : widget) (file : value)
    (Hnew : match currentFile w, file with
            | Some g, Some f => file_ref g <> file_ref f
            | None, None => False
            | _, _ => True
            end) :
  let w1 := exec (setValue file) w in
  let w2 := exec (setValue file) w1 in
  (if match file with Some f => unselects_itself w f | None => false end then
     currentFile w1 = None /\
     count is_change (log w1) = count is_change (log w) + 2 /\
     currentFile w2 = file /\
     count is_change (log w2) = count is_change (log w) + 3
   else
     currentFile w1 = file /\
     count is_change (log w1) = count is_change (log w) + 1 /\
     w2 = w1 /\
     count is_change (log w2) = count is_change (log w) + 1) /\
  (forall w',
     match currentFile w', file with
     | Some g, Some f => file_ref g = file_ref f
     | None, None => True
     | _, _ => False
     end ->
     exec (setValue file) w' = w').
Proof.
  intros w1 w2.
  assert (Hother : same_value (currentFile w) file = false).
  { destruct (same_value (currentFile w) file) eqn:E; [|reflexivity].
    apply same_value_by_reference in E.
    destruct (currentFile w), file; tauto. }
  split.
  - destruct (setValue_effect file w) as [_ H1]. specialize (H1 Hother).
    cbv zeta in H1. fold w1 in H1. destruct H1 as [Hc1 Hn1].
    destruct file as [f|]; [destruct (unselects_itself w f) eqn:Hu|].
    + pose proof (setValue_unselected_settles w f Hother Hu) as Hi1. fold w1 in Hi1.
      assert (Hu1 : unselects_itself w1 f = false)
        by (unfold unselects_itself; rewrite Hi1; apply andb_false_r).
      destruct (setValue_effect (Some f) w1) as [_ H2]. fold w2 in H2.
      rewrite Hc1 in H2. specialize (H2 eq_refl). cbv zeta in H2.
      rewrite Hu1 in H2. destruct H2 as [Hc2 Hn2].
      split; [exact Hc1|]. split; [exact Hn1|]. split; [exact Hc2 | lia].
    + assert (H2 : w2 = w1)
        by (apply setValue_same; rewrite Hc1; apply same_value_refl).
      split; [exact Hc1|]. split; [exact Hn1|]. split; [exact H2|].
      now rewrite H2.
    + assert (H2 : w2 = w1)
        by (apply setValue_same; rewrite Hc1; reflexivity).
      split; [exact Hc1|]. split; [exact Hn1|]. split; [exact H2|].
      now rewrite H2.
  - intros w' H. apply setValue_same. apply same_value_by_reference.
    destruct (currentFile w'), file; tauto.
Qed.

Lemma setValue_twice_emits_one_or_three_changes_witness :
  let w := exec (setValue (Some photo)) (construct true images_only) in
  let w1 := exec (setValue (Some nameless)) w in
  let w2 := exec (setValue (Some nameless)) w1 in
  (currentFile w = Some photo /\ file_ref photo <> file_ref nameless) /\
  unselects_itself w nameless = true /\
  currentFile w1 = None /\
  count is_change (log w2) = count is_change (log w) + 3.
Proof.
  intros w w1 w2.
  assert (Hr : file_ref photo <> file_ref nameless) by discriminate.
  split; [split; [reflexivity | exact Hr]|]. split; [reflexivity|].
  destruct (setValue_twice_emits_one_or_three_changes w (Some nameless) Hr) as (H & _).
  change (unselects_itself w nameless) with true in H.
  destruct H as (Hc1 & _ & _ & Hn2).
  split; [exact Hc1 | exact Hn2].
Defined.

(** A file without a name selected over the jpeg: what the widget and its
    listener go through. *)
Example nameless_file_over_a_named_one :
  let w := exec (setValue (Some photo)) (exec (connect 1) (construct true images_only)) in
  let w1 := exec (setValue (Some nameless)) w in
  since w w1 =
    [EmitChange (Some nameless);
     InfoSetValue "";
     EmitChange None;
     InfoSetValue "";
     ElementOffClick; ElementOnClick; ThumbnailEmpty; ThumbnailBackground "";
     ElementAddClass "oo-ui-selectFileInputWidget-empty";
     Delivered 1 None;
     ElementOffClick; ElementOnClick; ThumbnailEmpty; ThumbnailBackground "";
     ElementAddClass "oo-ui-selectFileInputWidget-empty";
     Delivered 1 (Some nameless)] /\
  currentFile w1 = None /\
  since w1 (exec (setValue (Some nameless)) w1) =
    EmitChange (Some nameless) ::
    refreshed nameless [ReadAsDataURL 1 nameless] ++ [Delivered 1 (Some nameless)].
Proof. repeat split. Qed.

(** * More of the code *)

(** ** The form-compatible widget: selection, file name, value *)

Section FormWidget.

Local Open Scope string_scope.

Import SelectFileInputWidget.

(** X1.  [onFileSelected] of the form-compatible widget keeps the first
    file of the event if its type is allowed and [null] otherwise (also
    when a file was selected before); whatever it keeps passes the
    filter.  Only the first file counts, and neither the stored value nor
    the log is touched: no change is emitted. *)
Theorem form_onFileSelected_keeps_first_allowed_file
    (files : list File) (w : SelectFileInputWidget.widget) :
  let w' := SelectFileInputWidget.onFileSelected files w in
  SelectFileInputWidget.value w' = SelectFileInputWidget.value w /\
  SelectFileInputWidget.log w' = SelectFileInputWidget.log w /\
  SelectFileInputWidget.accept w' = SelectFileInputWidget.accept w /\
  (forall f, SelectFileInputWidget.currentFile w' = Some f ->
     first_file files = Some f /\
     isAllowedType (SelectFileInputWidget.accept w') (file_type f) = true) /\
  (SelectFileInputWidget.currentFile w' = None <->
   files = [] \/
   exists f, first_file files = Some f /\
             isAllowedType (SelectFileInputWidget.accept w) (file_type f) = false) /\
  w' = SelectFileInputWidget.onFileSelected (firstn 1 files) w.
Proof.
  intros w'. subst w'. unfold SelectFileInputWidget.onFileSelected.
  destruct files as [|f rest]; simpl.
  - do 3 (split; [reflexivity|]).
    split; [intros g Hg; discriminate|].
    split; [|reflexivity].
    split; [intros _; now left | reflexivity].
  - destruct (isAllowedType (SelectFileInputWidget.accept w) (file_type f)) eqn:E; simpl.
    + do 3 (split; [reflexivity|]).
      split; [intros g Hg; inversion Hg; subst; now split|].
      split; [|reflexivity].
      split; [discriminate|].
      intros [H|(g & Hg & Hr)]; [discriminate|].
      inversion Hg; subst. congruence.
    + do 3 (split; [reflexivity|]).
      split; [intros g Hg; discriminate|].
      split; [|reflexivity].
      split; [|reflexivity].
      intros _. right. exists f. now split.
Qed.

Lemma has_char_app (c : ascii) (a b : string) :
  has_char c (a ++ b) = has_char c a || has_char c b.
Proof.
  unfold has_char. induction a as [|x a IH]; simpl; [reflexivity|].
  now rewrite IH, orb_assoc.
Qed.

Lemma split_pop_no_sep (sep : ascii) (s : string) :
  has_char sep (JS.split_pop sep s) = false.
Proof.
  unfold has_char. induction s as [|a s IH]; simpl; [reflexivity|].
  destruct (existsb (Ascii.eqb sep) (list_ascii_of_string s)) eqn:E; [exact IH|].
  destruct (Ascii.eqb a sep) eqn:Ea; [exact E|].
  simpl. now rewrite Ascii.eqb_sym, Ea, E.
Qed.

Lemma split_pop_whole (sep : ascii) (s : string) :
  has_char sep s = false -> JS.split_pop sep s = s.
Proof.
  unfold has_char. destruct s as [|a s]; simpl; [reflexivity|].
  intros H. apply orb_false_iff in H. destruct H as [Ha Hs].
  now rewrite Hs, Ascii.eqb_sym, Ha.
Qed.

Lemma split_pop_after (sep : ascii) (dir base : string) :
  has_char sep base = false ->
  JS.split_pop sep (dir ++ String sep base) = base.
Proof.
  intros Hb. induction dir as [|a dir IH]; simpl.
  - unfold has_char in Hb. now rewrite Hb, Ascii.eqb_refl.
  - change (existsb (Ascii.eqb sep) (list_ascii_of_string (dir ++ String sep base)))
      with (has_char sep (dir ++ String sep base)).
    rewrite has_char_app. unfold has_char at 2. simpl.
    now rewrite Ascii.eqb_refl, orb_true_r.
Qed.

Lemma split_pop_is_suffix (sep : ascii) (s : string) :
  exists dir,
    s = dir ++ JS.split_pop sep s /\
    (dir = "" \/ exists d, dir = d ++ String sep "").
Proof.
  induction s as [|a s IH]; simpl.
  - exists "". split; [reflexivity | now left].
  - destruct (existsb (Ascii.eqb sep) (list_ascii_of_string s)) eqn:E.
    + destruct IH as (dir & Hs & Hd).
      exists (String a dir). split; [simpl; now rewrite <- Hs|].
      right. destruct Hd as [->|(d & ->)].
      * exfalso. simpl in Hs.
        pose proof (split_pop_no_sep sep s) as Hn. rewrite <- Hs in Hn.
        unfold has_char in Hn. congruence.
      * now exists (String a d).
    + destruct (Ascii.eqb_spec a sep) as [->|Hne].
      * exists (String sep ""). split; [reflexivity|]. right. now exists "".
      * exists "". split; [reflexivity | now left].
Qed.

(** X2.  Without a file object, [getFilename] of the form-compatible widget
    asks the inherited [getValue] and answers what that answers less its
    directories: the name holds no backslash, the answer of [getValue] ends
    with it, and what comes before is empty or ends in a backslash.  An
    answer without backslash is passed on whole; from [dir\base] the [base]
    is kept.  Whatever [getValue] did to the widget stays done.  With a file
    object, [getValue] is not asked: the name is the file's and the widget
    is untouched. *)
Theorem form_getFilename_strips_fake_path
    (InputWidget_getValue : SelectFileInputWidget.widget ->
                            string * SelectFileInputWidget.widget)
    (w : SelectFileInputWidget.widget)
    (Hnone : SelectFileInputWidget.currentFile w = None) :
  let answer := fst (InputWidget_getValue w) in
  let name := fst (SelectFileInputWidget.getFilename InputWidget_getValue w) in
  has_char "\" name = false /\
  (exists dir,
     answer = dir ++ name /\
     (dir = "" \/ exists d, dir = d ++ "\")) /\
  (has_char "\" answer = false -> name = answer) /\
  (forall dir base,
     answer = dir ++ "\" ++ base ->
     has_char "\" base = false ->
     name = base) /\
  snd (SelectFileInputWidget.getFilename InputWidget_getValue w) =
    snd (InputWidget_getValue w) /\
  (forall f u,
     SelectFileInputWidget.currentFile u = Some f ->
     SelectFileInputWidget.getFilename InputWidget_getValue u = (file_name f, u)).
Proof.
  intros answer name. subst answer name.
  unfold SelectFileInputWidget.getFilename. rewrite Hnone.
  destruct (InputWidget_getValue w) as [v w1]. cbn [fst snd].
  split; [apply split_pop_no_sep|]. split; [apply split_pop_is_suffix|].
  split; [apply split_pop_whole|]. split.
  - intros dir base Hv Hb. rewrite Hv. now apply split_pop_after.
  - split; [reflexivity|]. intros f u Hu. now rewrite Hu.
Qed.

Lemma form_getFilename_strips_fake_path_witness :
  let w := SelectFileInputWidget.mkWidget "" None None [] in
  let native := fun u : SelectFileInputWidget.widget =>
                  ("C:\fakepath\photo.jpg", SelectFileInputWidget.set_value "C:\fakepath\photo.jpg" u) in
  SelectFileInputWidget.currentFile w = None /\
  fst (SelectFileInputWidget.getFilename native w) = "photo.jpg".
Proof.
  intros w native. split; [reflexivity|].
  destruct (form_getFilename_strips_fake_path native w eq_refl) as (_ & _ & _ & H & _).
  apply (H "C:\fakepath" "photo.jpg"); reflexivity.
Defined.

End FormWidget.

(** ** The static support test *)

Lemma isSupported_answers_known (known : bool) (probes : list bool) :
  isSupported_answers probes (Some known) = repeat known (List.length probes).
Proof.
  induction probes as [|p rest IH]; simpl; [reflexivity | now rewrite IH].
Qed.

(** X4.  [isSupported] asks the platform once: whatever the platform would
    answer at later calls, every call answers what the first one found, and
    with a filled cache the platform is not asked at all. *)
Theorem static_isSupported_asks_once (first : bool) (later : list bool) :
  isSupported_answers (first :: later) None = repeat first (S (List.length later)) /\
  snd (static_isSupported first None) = Some first /\
  (forall known probes,
     isSupported_answers probes (Some known) = repeat known (List.length probes)) /\
  (forall known probe, static_isSupported probe (Some known) = (known, Some known)).
Proof.
  repeat split.
  - simpl. now rewrite isSupported_answers_known.
  - apply isSupported_answers_known.
Qed.

(** ** The richer widget: construction and selection *)

Section Selection.

Local Open Scope list_scope.

(** X5.  A freshly constructed widget has no file, no unsettled preview
    and no listener, and constructing it emits no change.  It takes its
    filter and its size limit from the configuration; it has a drop target
    only if the platform selects files and the configuration asks for both
    [droppable] and [showDropTarget]; it is disabled if the configuration
    says so or the platform does not select files. *)
Theorem construct_starts_empty (supported : bool) (cfg : config) :
  let w := construct supported cfg in
  currentFile w = None /\
  tasks w = [] /\
  bindings w = [] /\
  inputClearing w = false /\
  count is_change (log w) = 0 /\
  count is_push (log w) = 0 /\
  accept w = cfg_accept cfg /\
  thumbnailSizeLimit w = cfg_thumbnailSizeLimit cfg /\
  isSupported w = supported /\
  showDropTarget w = supported && cfg_droppable cfg && cfg_showDropTarget cfg /\
  disabled w = cfg_disabled cfg || negb supported.
Proof.
  destruct cfg as [acc [|] [|c ns] [|] bo [|] lim], supported; repeat split.
Qed.

Lemma setValue_keeps_settings
    (v : value) (s b : bool) (a : option (list string)) (t : bool) (lim : Z) (off clr : bool) :
  preserves (fun w => isSupported w = s /\ selectButton w = b /\ accept w = a /\
                      showDropTarget w = t /\ thumbnailSizeLimit w = lim /\
                      disabled w = off /\ inputClearing w = clr)
    (setValue v).
Proof.
  unfold_methods. preserve_with ltac:(by_fields ltac:(assumption)).
Qed.

Lemma setValue_settings (v : value) (w : widget) :
  let w' := exec (setValue v) w in
  isSupported w' = isSupported w /\ selectButton w' = selectButton w /\
  accept w' = accept w /\ showDropTarget w' = showDropTarget w /\
  thumbnailSizeLimit w' = thumbnailSizeLimit w /\
  disabled w' = disabled w /\ inputClearing w' = inputClearing w.
Proof.
  apply (setValue_keeps_settings v _ _ _ _ _ _ _ w). repeat split.
Qed.

(** X20.  [setValue], [emit], [updateUI], the info field and
    [onInfoChange] call each other in a circle, and the circle closes after
    one turn: [setValue] is the method that finds itself behind
    [onInfoChange], [updateUI] the one that finds that [setValue] there,
    and whatever is put in the place of a third entry of [setValue] is
    never reached. *)
Theorem setValue_is_entered_at_most_twice :
  (forall v w, setValue v w = setValue_with setValue v w) /\
  (forall w, updateUI w = updateUI_with setValue w) /\
  (forall v w, emit_change v w = emit_change_with setValue v w) /\
  (forall (d d' : value -> M unit) v w,
     setValue_with (setValue_with d) v w = setValue_with (setValue_with d') v w).
Proof.
  split; [exact setValue_unfolds|]. split; [exact updateUI_unfolds|].
  split; [|exact reentry_is_shallow].
  intros v w. unfold emit_change, emit_change_with, bind.
  destruct (say (EmitChange v) w) as [u w1]. cbv beta iota.
  unfold gets. now rewrite updateUI_unfolds.
Qed.

(** X6.  [getValue] answers the selected file and [getFilename] its name
    (or [''] without one), and neither changes the widget.  After
    [setValue( v )]: if [v] is, by reference, the value selected before,
    nothing has changed; otherwise the selection is [v] itself, unless [v]
    is a file that unselects itself, after which nothing is selected. *)
Theorem getValue_after_setValue (w : widget) (v : value) :
  let w' := exec (setValue v) w in
  getValue w' = (currentFile w', w') /\
  getFilename w' =
    (match currentFile w' with Some f => file_name f | None => ""%string end, w') /\
  match currentFile w, v with
  | Some g, Some f =>
      (file_ref g = file_ref f -> w' = w) /\
      (file_ref g <> file_ref f ->
       currentFile w' = if unselects_itself w f then None else Some f)
  | None, Some f => currentFile w' = if unselects_itself w f then None else Some f
  | Some g, None => currentFile w' = None
  | None, None => w' = w
  end.
Proof.
  intros w'. destruct (setValue_effect v w) as [Hsame Hnew]. fold w' in Hsame, Hnew.
  split; [reflexivity|]. split; [reflexivity|].
  destruct (currentFile w) as [g|] eqn:Hc, v as [f|]; simpl in Hsame, Hnew.
  - split; intros H.
    + apply Hsame. now apply Pos.eqb_eq.
    + apply Hnew. now apply Pos.eqb_neq.
  - now apply Hnew.
  - now apply Hnew.
  - now apply Hsame.
Qed.

(** X7.  [setValue] asks neither the filter nor the disabled state: called
    with a file whose type the filter refuses (a file with a name, and by
    reference not the one selected), it selects the file and emits one
    change all the same, and the widget then holds a file that its own
    filter rejects. *)
Theorem setValue_is_not_filtered
    (w : widget) (f : File)
    (Hrejected : isAllowedType (accept w) (file_type f) = false)
    (Hnamed : file_name f <> ""%string)
    (Hnew : match currentFile w with
            | Some g => file_ref g <> file_ref f
            | None => True
            end) :
  let w' := exec (setValue (Some f)) w in
  currentFile w' = Some f /\
  count is_change (log w') = count is_change (log w) + 1 /\
  disabled w' = disabled w /\
  ~ selection_allowed w'.
Proof.
  intros w'.
  destruct (setValue_named f w Hnamed (other_reference_is_new _ _ Hnew)) as [Hc Hn].
  fold w' in Hc, Hn.
  destruct (setValue_settings (Some f) w) as (_ & _ & Ha & _ & _ & Hd & _).
  fold w' in Ha, Hd.
  split; [exact Hc|]. split; [exact Hn|]. split; [exact Hd|].
  unfold selection_allowed. rewrite Hc, Ha, Hrejected. discriminate.
Qed.

Lemma setValue_is_not_filtered_witness :
  let w := construct true images_only_disabled in
  (isAllowedType (accept w) (file_type notes) = false /\
   file_name notes <> ""%string /\
   currentFile w = None) /\
  disabled w = true /\
  currentFile (exec (setValue (Some notes)) w) = Some notes.
Proof.
  intros w.
  assert (Hn : file_name notes <> ""%string) by discriminate.
  split; [split; [reflexivity | split; [exact Hn | reflexivity]]|].
  split; [reflexivity|].
  destruct (setValue_is_not_filtered w notes eq_refl Hn I) as (H & _).
  exact H.
Defined.


Lemma onDrop_selects (files : list File) (f : File) (w : widget) :
  disabled w = false ->
  allowed_file (accept w) files = Some f ->
  onDrop files w = (false, exec (setValue (Some f)) (drop_ignored w)).
Proof.
  intros Hd Ha. destruct w as [sup btn acc tgt lim off cur clr bs ts n lg held].
  simpl in *. subst.
  unfold exec, drop_ignored, onDrop, bind, say, modify, isDisabled, gets, ret.
  cbn -[setValue]. rewrite Ha.
  destruct (setValue (Some f) _) as [u w']. reflexivity.
Qed.






End Selection.

(** ** The richer widget: what every run keeps *)

Section Runs.

Local Open Scope list_scope.

Lemma latest_snoc {A} (pick : effect -> option A) (l : list effect) (e : effect) :
  latest pick (l ++ [e]) =
  match pick e with Some a => Some a | None => latest pick l end.
Proof. unfold latest. now rewrite fold_left_app. Qed.

Lemma info_values_app (l l' : list effect) :
  info_values (l ++ l') = info_values l ++ info_values l'.
Proof.
  induction l as [|e l IH]; simpl; [reflexivity|].
  destruct e; simpl; now rewrite IH.
Qed.

Lemma run_cons (a : action) (l : list action) (w : widget) :
  exec (run (a :: l)) w = exec (run l) (exec (step a) w).
Proof.
  unfold exec, run. simpl. unfold bind. now destruct (step a w).
Qed.

(** A property kept by the steps that [ok] lets through is kept by the
    runs made of such steps. *)
Lemma run_preserves_when (I : widget -> Prop) (ok : action -> bool) :
  (forall a, ok a = true -> preserves I (step a)) ->
  forall l, forallb ok l = true -> forall w, I w -> I (exec (run l) w).
Proof.
  intros Hstep. induction l as [|a l IH]; simpl; intros Hok w Hw; [exact Hw|].
  apply andb_true_iff in Hok. destruct Hok as [Ha Hl].
  rewrite run_cons. apply (IH Hl). apply (Hstep a Ha w Hw).
Qed.

Lemma run_preserves (I : widget -> Prop) :
  (forall a, preserves I (step a)) ->
  forall l w, I w -> I (exec (run l) w).
Proof.
  intros Hstep l w Hw. apply (preserves_forEach I l step Hstep w Hw).
Qed.

(** *** The filter *)

Lemma allowed_file_ok (a : option (list string)) (files : list File) :
  match allowed_file a files with
  | Some f => isAllowedType a (file_type f) = true
  | None => True
  end.
Proof.
  unfold allowed_file. destruct (first_file files) as [f|]; [|exact I].
  destruct (isAllowedType a (file_type f)) eqn:E; simpl; [exact E | exact I].
Qed.

Lemma setValue_filtered (a0 : option (list string)) (v : value) :
  match v with Some f => isAllowedType a0 (file_type f) = true | None => True end ->
  preserves (filtered a0) (setValue v).
Proof.
  intros Hv w (Hi & Ha & Hs).
  change (snd (setValue v w)) with (exec (setValue v) w).
  destruct (setValue_settings v w) as (_ & _ & Ha' & _ & _ & _ & Hi').
  destruct (setValue_effect v w) as [Hsame Hnew].
  unfold filtered, selection_allowed in *. rewrite Ha', Hi', Ha in *.
  split; [exact Hi|]. split; [reflexivity|].
  destruct (same_value (currentFile w) v) eqn:E.
  - rewrite (Hsame eq_refl). exact Hs.
  - destruct (Hnew eq_refl) as [Hc _]. rewrite Hc.
    destruct v as [f|]; [destruct (unselects_itself w f); [exact I | exact Hv] | exact I].
Qed.

Ltac unfold_events :=
  unfold step, run, onFileSelected, onDrop, onDragLeave, info_changed,
    onInfoChange, connect, reader_onload, img_onload, on_resolved, on_rejected,
    setDisabled, SelectFileInputWidget_setDisabled, Widget_setDisabled, isDisabled.

Lemma drop_ignored_filtered (a0 : option (list string)) (w : widget) :
  filtered a0 w -> filtered a0 (drop_ignored w).
Proof. destruct w; intros H; exact H. Qed.

Lemma step_filtered (a0 : option (list string)) (a : action) :
  from_user a = true -> preserves (filtered a0) (step a).
Proof.
  destruct a as [[f|]|d|files|files| |v|s|id result|id nw nh c]; simpl;
    intros Hu; try discriminate.
  - now apply setValue_filtered.
  - unfold_methods.
    preserve_with ltac:(by_fields ltac:(unfold filtered, selection_allowed in *; assumption)).
  - intros w H. pose proof H as (Hi & Ha & Hs).
    change (snd (onFileSelected files w)) with (exec (onFileSelected files) w).
    rewrite (onFileSelected_sets _ _ Hi). apply setValue_filtered.
    + rewrite Ha. apply allowed_file_ok.
    + destruct w; exact H.
  - intros w H. pose proof H as (Hi & Ha & Hs). unfold bind.
    destruct (disabled w) eqn:Hd.
    + rewrite (onDrop_disabled _ _ Hd). now apply drop_ignored_filtered.
    + destruct (allowed_file (accept w) files) as [f|] eqn:Ea.
      * rewrite (onDrop_selects _ _ _ Hd Ea). apply setValue_filtered.
        -- pose proof (allowed_file_ok (accept w) files) as Hok.
           rewrite Ea, Ha in Hok. exact Hok.
        -- now apply drop_ignored_filtered.
      * rewrite (onDrop_nothing_allowed _ _ Ea). now apply drop_ignored_filtered.
  - unfold_methods.
    preserve_with ltac:(by_fields ltac:(unfold filtered, selection_allowed in *; assumption)).
  - unfold info_changed, onInfoChange.
    apply preserves_bind;
      [by_fields ltac:(unfold filtered, selection_allowed in *; assumption) | intros _].
    destruct (v =? "")%string;
      [now apply setValue_filtered | apply preserves_ret].
  - unfold_methods.
    preserve_with ltac:(by_fields ltac:(unfold filtered, selection_allowed in *; assumption)).
  - unfold_methods.
    preserve_with ltac:(by_fields ltac:(unfold filtered, selection_allowed in *; assumption)).
  - unfold_methods.
    preserve_with ltac:(by_fields ltac:(unfold filtered, selection_allowed in *; assumption)).
Qed.

(** X10.  As long as the application does not call [setValue] with a file
    of its own, whatever the widget has selected passes its filter: no run
    of native-input events, drops, drag leaves, clearings through the info
    field, [setDisabled] calls and preview events, in any order, leaves a
    file of a refused type selected. *)
Theorem user_events_keep_selection_allowed
    (supported : bool) (cfg : config) (l : list action)
    (Huser : forallb from_user l = true) :
  let w := exec (run l) (construct supported cfg) in
  selection_allowed w /\ accept w = cfg_accept cfg.
Proof.
  intros w.
  assert (H : filtered (cfg_accept cfg) w).
  { apply (run_preserves_when _ from_user (step_filtered (cfg_accept cfg)) l Huser).
    destruct cfg as [acc [|] [|c ns] [|] bo [|] lim], supported; repeat split. }
  destruct H as (_ & Ha & Hs). now split.
Qed.

Lemma user_events_keep_selection_allowed_witness :
  let l := [Drop [notes]; FileSelected [photo]; Drop [notes; photo];
            SetDisabled true; Drop [photo]; InfoChange ""; FileSelected [notes]] in
  forallb from_user l = true /\
  selection_allowed (exec (run l) (construct true images_only)).
Proof.
  intros l. split; [reflexivity|].
  apply (user_events_keep_selection_allowed true images_only l). reflexivity.
Defined.

(** *** The disabled state of the sub-widgets *)

Lemma setDisabled_in_sync (d : bool) (w : widget) :
  let w' := exec (setDisabled d) w in
  disabled w' = d || negb (isSupported w) /\ in_sync w'.
Proof.
  destruct w as [sup btn acc tgt lim off cur clr bs ts n lg held]. simpl.
  unfold in_sync. simpl. rewrite ?latest_snoc. simpl. rewrite ?latest_snoc. simpl.
  repeat split.
Qed.

Lemma step_keeps_isSupported (s : bool) (a : action) :
  preserves (fun w => isSupported w = s) (step a).
Proof.
  destruct a; simpl; unfold_methods;
    preserve_with ltac:(by_fields ltac:(assumption)).
Qed.

Lemma step_in_sync (a : action) : preserves in_sync (step a).
Proof.
  destruct a; simpl;
    try (intros w _; apply (setDisabled_in_sync d w));
    unfold_methods;
    preserve_with ltac:(by_fields ltac:(
      unfold in_sync in *; simpl in *; rewrite ?latest_snoc; simpl; assumption)).
Qed.

(** X11.  The select button and the info field are always in the disabled
    state of the widget: after construction and any run of events, the last
    [setDisabled] each of them received carried the widget's own state.
    [setDisabled( d )] leaves all three at [d] on a platform that selects
    files, and disabled on one that does not. *)
Theorem sub_widgets_follow_disabled
    (supported : bool) (cfg : config) (l : list action) :
  let w := exec (run l) (construct supported cfg) in
  latest told_button (log w) = Some (disabled w) /\
  latest told_info (log w) = Some (disabled w) /\
  (forall d,
     let w' := exec (setDisabled d) w in
     disabled w' = d || negb supported /\
     latest told_button (log w') = Some (d || negb supported) /\
     latest told_info (log w') = Some (d || negb supported)).
Proof.
  intros w.
  assert (Hsync : in_sync w).
  { apply (run_preserves _ step_in_sync).
    destruct cfg as [acc [|] [|c ns] [|] bo [|] lim], supported; split; reflexivity. }
  assert (Hsup : isSupported w = supported).
  { apply (run_preserves _ (step_keeps_isSupported supported)).
    destruct cfg as [acc [|] [|c ns] [|] bo [|] lim], supported; reflexivity. }
  destruct Hsync as [Hb Hi]. split; [exact Hb|]. split; [exact Hi|].
  intros d w'. destruct (setDisabled_in_sync d w) as (Hd & Hb' & Hi').
  fold w' in Hd, Hb', Hi'. rewrite Hsup in Hd. rewrite <- Hd. now repeat split.
Qed.

(** *** A platform without file selection *)

Lemma updateUI_unsupported (w : widget) :
  isSupported w = false -> updateUI w = (tt, w).
Proof.
  intros H. apply updateUI_returns. rewrite H. apply andb_false_r.
Qed.

Lemma updateUI_notice_only (msg : string) : preserves (notice_only msg) updateUI.
Proof.
  intros w H. rewrite (updateUI_unsupported w (proj1 H)). exact H.
Qed.

Ltac unfold_but_updateUI :=
  unfold step, run, onFileSelected, onDrop, onDragLeave, info_changed,
    onInfoChange, connect, reader_onload, img_onload, on_resolved, on_rejected,
    setValue, emit_change, setValue_with, emit_change_with,
    setDisabled, SelectFileInputWidget_setDisabled, Widget_setDisabled, isDisabled.

Lemma step_notice_only (msg : string) (a : action) :
  preserves (notice_only msg) (step a).
Proof.
  destruct a; simpl; unfold_but_updateUI;
    preserve_with ltac:(first
      [ apply updateUI_notice_only
      | by_fields ltac:(
          unfold notice_only in *; simpl in *;
          rewrite ?info_values_app; simpl; rewrite ?app_nil_r;
          match goal with
          | H : _ /\ _ /\ _ |- _ =>
              destruct H as (? & ? & ?); repeat split; try assumption; count_tac
          end) ]).
Qed.

(** X12.  On a platform without file selection the widget never refreshes
    itself: [updateUI] returns at once, so after construction and any run
    of events the info field has only ever been given the not-supported
    message of the configuration, and no preview was begun, even though
    [setValue] still stores the file and emits the change. *)
Theorem unsupported_widget_keeps_its_notice (cfg : config) (l : list action) :
  let w := exec (run l) (construct false cfg) in
  info_values (log w) = [cfg_notsupported cfg] /\
  count is_push (log w) = 0 /\
  updateUI w = (tt, w) /\
  (forall f,
     same_value (currentFile w) (Some f) = false ->
     let w' := exec (setValue (Some f)) w in
     currentFile w' = Some f /\
     log w' = log w ++ EmitChange (Some f) :: map (fun s => Delivered s (Some f)) (bindings w)).
Proof.
  intros w.
  assert (H : notice_only (cfg_notsupported cfg) w).
  { apply (run_preserves _ (step_notice_only (cfg_notsupported cfg))).
    destruct cfg as [acc [|] [|c ns] [|] bo [|] lim]; repeat split. }
  destruct H as (Hs & Hi & Hp).
  split; [exact Hi|]. split; [exact Hp|]. split; [now apply updateUI_unsupported|].
  intros f Hnew w'. subst w'.
  destruct (setValue_effect (Some f) w) as [_ Hchg]. destruct (Hchg Hnew) as [Hc _].
  assert (Hu : unselects_itself w f = false)
    by (unfold unselects_itself; rewrite Hs, andb_false_r; reflexivity).
  rewrite Hu in Hc.
  split; [exact Hc|].
  rewrite (setValue_new _ _ Hnew), emit_change_unfold.
  set (w0 := set_log _ (set_currentFile (Some f) w)).
  assert (Hs0 : isSupported w0 = false) by exact Hs.
  unfold exec. rewrite (updateUI_unsupported w0 Hs0). simpl.
  now rewrite <- app_assoc.
Qed.

(** *** The value that listeners know *)








(** *** Widgets without a drop target *)

Lemma refresh_preview_no_preview : preserves no_preview refresh_preview.
Proof.
  intros w (Ht & Hp & Hr & Hts). open_widget w. subst.
  unfold refresh_preview, when, bind, gets, say, modify, ret, no_preview; simpl.
  destruct cur as [f|]; simpl; repeat split; count_tac.
Qed.

Lemma step_no_preview (a : action) : preserves no_preview (step a).
Proof.
  destruct a; simpl; unfold_handlers; unfold reader_onload, img_onload, on_resolved,
    on_rejected;
    preserve_with ltac:(first
      [ apply refresh_preview_no_preview
      | by_fields ltac:(
          unfold no_preview in *; simpl in *;
          match goal with
          | H : _ /\ _ /\ _ /\ _ |- _ =>
              destruct H as (? & ? & ? & ?); subst; simpl;
              repeat split; try assumption; count_tac
          end) ]).
Qed.

(** X14.  A widget constructed without a drop target (the default, and
    always so when [droppable] is off or the platform does not select
    files) never looks into a file: after any run of events no preview was
    begun, no file was read and no deferred is waiting. *)
Theorem no_drop_target_no_preview
    (supported : bool) (cfg : config) (l : list action)
    (Hplain : supported && cfg_droppable cfg && cfg_showDropTarget cfg = false) :
  let w := exec (run l) (construct supported cfg) in
  showDropTarget w = false /\
  count is_push (log w) = 0 /\
  count is_read (log w) = 0 /\
  tasks w = [].
Proof.
  intros w. apply (run_preserves no_preview step_no_preview).
  destruct cfg as [acc [|] [|c ns] [|] bo [|] lim], supported;
    simpl in Hplain; try discriminate; repeat split.
Qed.

Lemma no_drop_target_no_preview_witness :
  let l := [SetValue (Some photo); Drop [photo]; FileSelected [photo];
            ReaderOnload 0 "data:"; ImgOnload 0 1 1 true] in
  true && cfg_droppable default_config && cfg_showDropTarget default_config = false /\
  count is_read (log (exec (run l) (construct true default_config))) = 0.
Proof.
  intros l. split; [reflexivity|].
  destruct (no_drop_target_no_preview true default_config l eq_refl) as (_ & _ & H & _).
  exact H.
Defined.

End Runs.

(** ** The richer widget: previews *)

Section Previews.

Local Open Scope list_scope.

Lemma indexOf_0_iff_prefix (s p : string) :
  JS.indexOf s p = 0%Z <-> prefix p s = true.
Proof.
  unfold JS.indexOf. destruct s as [|c r].
  - destruct p; simpl; split; intros H; try reflexivity; discriminate.
  - cbn [index]. destruct (prefix p (String c r)); [split; reflexivity|].
    destruct (index 0 p r); split; intros H; try discriminate; lia.
Qed.

(** X15.  A preview is only ever attempted for an image below the limit:
    a file qualifies exactly when its type starts with ["image/"] (in
    lower case, slash included) and its size in bytes is strictly below
    [limit * 1024 * 1024].  [loadAndGetImageUrl] hands back a rejected
    promise exactly when no file is selected or the selected one does not
    qualify, and then it leaves the widget as it is. *)
Theorem preview_only_for_small_images (w : widget) :
  (forall limit f,
     qualifies limit f = true <->
     (exists rest, file_type f = ("image/" ++ rest)%string) /\
     (file_size f < limit * 1024 * 1024)%Z) /\
  (fst (loadAndGetImageUrl w) = Rejected <->
   currentFile w = None \/
   exists f, currentFile w = Some f /\ qualifies (thumbnailSizeLimit w) f = false) /\
  (fst (loadAndGetImageUrl w) = Rejected -> snd (loadAndGetImageUrl w) = w).
Proof.
  split; [|split].
  - intros limit f. unfold qualifies. rewrite andb_true_iff, Z.eqb_eq, Z.ltb_lt.
    rewrite indexOf_0_iff_prefix, prefix_correct.
    now rewrite (substring_0_is_prefix "image/" (file_type f)).
  - unfold loadAndGetImageUrl, bind, gets, ret.
    destruct (currentFile w) as [f|]; simpl.
    + destruct (qualifies (thumbnailSizeLimit w) f) eqn:E; simpl.
      * split; [discriminate|].
        intros [H|(g & Hg & Hq)]; [discriminate|]. inversion Hg; subst. congruence.
      * split; [|reflexivity]. intros _. right. exists f. now split.
    + split; [intros _; now left | reflexivity].
  - unfold loadAndGetImageUrl, bind, gets, ret.
    destruct (currentFile w) as [f|]; simpl; [|reflexivity].
    destruct (qualifies (thumbnailSizeLimit w) f); simpl; [discriminate | reflexivity].
Qed.

Example previews_are_for_lower_case_image_types :
  qualifies 20 (mkFile 5 "a.PNG" "Image/png" 10) = false /\
  qualifies 20 (mkFile 5 "a.svg" "image/svg+xml" 10) = true /\
  qualifies 20 (mkFile 5 "a" "image" 10) = false /\
  qualifies 20 (mkFile 5 "a" "" 10) = false /\
  qualifies 0 (mkFile 5 "a.png" "image/png" 0) = false.
Proof. repeat split. Qed.

Lemma latest_app {A} (pick : effect -> option A) (l l' : list effect) :
  latest pick (l ++ l') =
  match latest pick l' with Some a => Some a | None => latest pick l end.
Proof.
  unfold latest. rewrite fold_left_app. generalize (fold_left
    (fun acc e => match pick e with Some a => Some a | None => acc end) l None).
  induction l' as [|e l' IH]; intros acc; simpl; [reflexivity|].
  rewrite IH. rewrite (IH (match pick e with Some a => Some a | None => None end)).
  destruct (fold_left _ l' None); [reflexivity|]. now destruct (pick e).
Qed.

Lemma latest_deliveries {A} (pick : effect -> option A) (v : value) (bs : list subscriber) :
  (forall s, pick (Delivered s v) = None) ->
  latest pick (map (fun s => Delivered s v) bs) = None.
Proof.
  intros Hp. induction bs as [|s bs IH]; [reflexivity|].
  change (map (fun s => Delivered s v) (s :: bs))
    with ([Delivered s v] ++ map (fun s => Delivered s v) bs).
  rewrite latest_app, IH. unfold latest. simpl. now rewrite Hp.
Qed.

Lemma updateUI_cleared (w : widget) :
  shows_preview w -> currentFile w = None ->
  exec updateUI w = set_log (log w ++ emptied) (set_infoValue "" w).
Proof.
  intros (Hb & Hs & Ht) Hc.
  rewrite (updateUI_runs w Hb Hs), (parent_updateUI_empty w Hc).
  rewrite refresh_preview_cleared; [| destruct w; assumption ..].
  destruct w; simpl. unfold set_log; simpl. now rewrite <- !app_assoc.
Qed.

(** [setValue( null )] on a widget that shows previews and holds a file.
    The info field is emptied; the [setValue( null )] that [onInfoChange]
    then calls finds no file and does nothing. *)
Lemma setValue_clears (w : widget) (f : File) :
  shows_preview w -> currentFile w = Some f ->
  exec (setValue None) w =
  set_log (log w ++ EmitChange None :: emptied
             ++ map (fun s => Delivered s None) (bindings w))
    (set_infoValue "" (set_currentFile None w)).
Proof.
  intros Hp Hc.
  assert (Hnew : same_value (currentFile w) None = false) by now rewrite Hc.
  rewrite (setValue_new _ _ Hnew), emit_change_unfold.
  set (w0 := set_log _ (set_currentFile None w)).
  assert (Hp0 : shows_preview w0) by exact Hp.
  rewrite (updateUI_cleared w0 Hp0 eq_refl).
  destruct w; simpl. unfold set_log; simpl. now rewrite <- !app_assoc.
Qed.

(** X16.  A preview that has been overtaken is not discarded.  On a widget
    that shows previews, let a file with a name be selected and its read
    begin, and let the selection be cleared before the image has loaded:
    the thumbnail is emptied, but the deferred of the old file stays, and
    when its image loads well the thumbnail is painted with the image of
    the file that is no longer selected.  Busy is cleared by that late
    load, not by the clearing. *)
Theorem overtaken_preview_is_still_painted
    (w : widget) (f : File) (url : string) (nw nh : Z)
    (Hpreview : shows_preview w)
    (Hcur : currentFile w = Some f)
    (Hnamed : file_name f <> ""%string)
    (Hqualifies : qualifies (thumbnailSizeLimit w) f = true)
    (Hids : fresh_ids w)
    (Hgood : bad_decode nw nh true = false) :
  let id := nextTask w in
  let w1 := exec updateUI w in
  let w2 := exec (setValue None) w1 in
  let w3 := exec (img_onload id nw nh true) (exec (reader_onload id url) w2) in
  currentFile w2 = None /\
  latest painted (log w2) = Some ""%string /\
  tasks w2 = tasks w ++ [(id, AwaitingRead f)] /\
  count is_pop (log w2) = count is_pop (log w) /\
  currentFile w3 = None /\
  log w3 = log w2 ++ [ImgSetSrc id url;
                      ThumbnailBackground ("url( " ++ url ++ " )")%string;
                      PopPending] /\
  latest painted (log w3) = Some ("url( " ++ url ++ " )")%string /\
  tasks w3 = tasks w.
Proof.
  intros id w1 w2 w3. pose proof (unused_id w Hids) as Hnew.
  assert (E1 : w1 = set_log (log w ++ refreshed f [ReadAsDataURL id f])
                 (set_tasks (tasks w ++ [(id, AwaitingRead f)]) (S id)
                    (set_infoValue (file_name f) w)))
    by (apply (updateUI_starts_read w f Hpreview Hcur (named_file_stays w f Hnamed)
                 Hqualifies)).
  assert (Hp1 : shows_preview w1) by (rewrite E1; destruct w; exact Hpreview).
  assert (Hc1 : currentFile w1 = Some f) by (rewrite E1; destruct w; exact Hcur).
  assert (E2 : w2 = set_log (log w1 ++ EmitChange None :: emptied
                               ++ map (fun s => Delivered s None) (bindings w1))
                 (set_infoValue "" (set_currentFile None w1)))
    by (apply (setValue_clears w1 f Hp1 Hc1)).
  assert (Ht2 : tasks w2 = tasks w ++ [(id, AwaitingRead f)])
    by (rewrite E2, E1; destruct w; reflexivity).
  assert (Hf2 : find_task id (tasks w2) = Some (AwaitingRead f))
    by (rewrite Ht2; now apply find_task_last).
  assert (Hl2 : latest painted (log w2) = Some ""%string).
  { assert (Hlog2 : log w2 = log w1 ++ ((EmitChange None :: emptied)
                       ++ map (fun s => Delivered s None) (bindings w1)))
      by (rewrite E2; destruct w1; reflexivity).
    rewrite Hlog2, !latest_app, latest_deliveries by reflexivity. reflexivity. }
  set (w2' := exec (reader_onload id url) w2) in *.
  assert (E2' : w2' = set_log (log w2 ++ [ImgSetSrc id url])
                  (set_tasks (replace_task id (AwaitingDecode url) (tasks w2))
                     (nextTask w2) w2))
    by (apply (reader_onload_probes _ _ f); exact Hf2).
  assert (Hf2' : find_task id (tasks w2') = Some (AwaitingDecode url)).
  { rewrite E2'. destruct w2; simpl in *.
    now apply (find_replace_task _ _ (AwaitingRead f)). }
  assert (E3 : w3 = set_log (log w2' ++ settled (bad_decode nw nh true) url)
                 (set_tasks (remove_task id (tasks w2')) (nextTask w2') w2'))
    by (apply img_onload_settles; exact Hf2').
  rewrite Hgood in E3. unfold settled in E3.
  assert (Hl3 : log w3 = log w2 ++ [ImgSetSrc id url;
                      ThumbnailBackground ("url( " ++ url ++ " )")%string;
                      PopPending]).
  { rewrite E3, E2'. destruct w2; simpl. now rewrite <- app_assoc. }
  split; [rewrite E2; destruct w1; reflexivity|].
  split; [exact Hl2|]. split; [exact Ht2|]. split.
  { rewrite E2, E1. destruct w; simpl. unfold count, emptied, refreshed.
    rewrite !filter_app, !length_app. simpl.
    assert (Hz : forall bs : list subscriber,
               List.length (filter is_pop (map (fun s => Delivered s None) bs)) = 0)
      by (induction bs; [reflexivity | assumption]).
    rewrite Hz. lia. }
  split; [rewrite E3, E2', E2; destruct w1; reflexivity|].
  split; [exact Hl3|]. split.
  - rewrite Hl3, latest_app. reflexivity.
  - rewrite E3, E2'. destruct w2; simpl in *. rewrite Ht2.
    now apply remove_added_task.
Qed.

Lemma overtaken_preview_is_still_painted_witness :
  let w := set_currentFile (Some photo) (construct true images_only) in
  let late := exec (img_onload (nextTask w) 800 600 true)
                (exec (reader_onload (nextTask w) "data:image/jpeg;base64,AAAA")
                   (exec (setValue None) (exec updateUI w))) in
  (shows_preview w /\ currentFile w = Some photo /\ file_name photo <> ""%string /\
   qualifies (thumbnailSizeLimit w) photo = true /\ fresh_ids w /\
   bad_decode 800 600 true = false) /\
  currentFile late = None /\
  latest painted (log late) = Some "url( data:image/jpeg;base64,AAAA )"%string.
Proof.
  intros w late.
  assert (Hp : shows_preview w) by (repeat split).
  assert (Hi : fresh_ids w) by (split; [constructor | intros ? []]).
  assert (Hn : file_name photo <> ""%string) by discriminate.
  split; [repeat split; [exact Hn | apply Hi | apply Hi]|].
  destruct (overtaken_preview_is_still_painted w photo
              "data:image/jpeg;base64,AAAA"%string 800 600 Hp eq_refl Hn eq_refl Hi eq_refl)
    as (_ & _ & _ & _ & Hc & _ & Hl & _).
  split; [exact Hc | exact Hl].
Defined.

(** *** The click on the drop target *)

Ltac unfold_events :=
  unfold step, run, onFileSelected, onDrop, onDragLeave, info_changed,
    onInfoChange, connect, reader_onload, img_onload, on_resolved, on_rejected,
    setDisabled, SelectFileInputWidget_setDisabled, Widget_setDisabled, isDisabled.

Lemma parent_updateUI_keeps_preview :
  preserves shows_preview SelectFileInputWidget_updateUI.
Proof.
  unfold_methods.
  preserve_with ltac:(by_fields ltac:(unfold shows_preview in *; assumption)).
Qed.

Lemma refresh_preview_keeps_preview : preserves shows_preview refresh_preview.
Proof.
  unfold_methods.
  preserve_with ltac:(by_fields ltac:(unfold shows_preview in *; assumption)).
Qed.

(** The refresh of the preview binds the click exactly when there is no
    file, whatever came before. *)
Lemma refresh_preview_clickable (w : widget) :
  showDropTarget w = true ->
  latest click_bound (log (exec refresh_preview w)) =
    Some (match currentFile w with None => true | Some _ => false end) /\
  currentFile (exec refresh_preview w) = currentFile w.
Proof.
  intros Ht. destruct (currentFile w) as [f|] eqn:Hc.
  - destruct (qualifies (thumbnailSizeLimit w) f) eqn:Hq.
    + rewrite (refresh_preview_starts_read w f Ht Hc Hq).
      destruct w; simpl in *. rewrite latest_app. split; [reflexivity | exact Hc].
    + rewrite (refresh_preview_rejects_at_once w f Ht Hc Hq).
      destruct w; simpl in *. rewrite latest_app. split; [reflexivity | exact Hc].
  - rewrite (refresh_preview_cleared w Ht Hc).
    destruct w; simpl in *. rewrite latest_app. split; [reflexivity | exact Hc].
Qed.

Lemma setValue_clickable (v : value) : preserves clickable_when_empty (setValue v).
Proof.
  intros w (Hp & Hk). change (snd (setValue v w)) with (exec (setValue v) w).
  destruct (same_value (currentFile w) v) eqn:E.
  - rewrite (setValue_same _ _ E). now split.
  - rewrite (setValue_new _ _ E), emit_change_unfold.
    set (w0 := set_log _ (set_currentFile v w)).
    assert (Hp0 : shows_preview w0) by exact Hp.
    rewrite (updateUI_runs w0 (proj1 Hp0) (proj1 (proj2 Hp0))).
    pose proof (parent_updateUI_keeps_preview w0 Hp0) as Hp1.
    change (snd (SelectFileInputWidget_updateUI w0))
      with (exec SelectFileInputWidget_updateUI w0) in Hp1.
    set (w1 := exec SelectFileInputWidget_updateUI w0) in *.
    pose proof (refresh_preview_keeps_preview w1 Hp1) as Hp2.
    change (snd (refresh_preview w1)) with (exec refresh_preview w1) in Hp2.
    destruct (refresh_preview_clickable w1 (proj2 (proj2 Hp1))) as [Hl Hc].
    set (wu := exec refresh_preview w1) in *.
    split; [destruct wu; exact Hp2|].
    assert (Hlog : log (set_log (log wu ++ map (fun s => Delivered s v)
                                   (bindings (set_currentFile v w))) wu) =
                   log wu ++ map (fun s => Delivered s v) (bindings (set_currentFile v w)))
      by (destruct wu; reflexivity).
    assert (Hcur : currentFile (set_log (log wu ++ map (fun s => Delivered s v)
                                   (bindings (set_currentFile v w))) wu) = currentFile wu)
      by (destruct wu; reflexivity).
    rewrite Hlog, Hcur, latest_app, latest_deliveries by reflexivity.
    now rewrite Hl, Hc.
Qed.

Lemma step_clickable (a : action) : preserves clickable_when_empty (step a).
Proof.
  destruct a; simpl; unfold_events;
    preserve_with ltac:(first
      [ apply setValue_clickable
      | by_fields ltac:(
          unfold clickable_when_empty, shows_preview in *; simpl in *;
          rewrite ?latest_snoc; simpl; assumption) ]).
Qed.

(** X17.  On a widget with a drop target, a click on the drop target opens
    the file picker exactly when no file is selected: after construction
    and any run of events, the click handler was last bound if
    [currentFile] is [null] and last taken away if a file is selected. *)
Theorem drop_target_clickable_iff_empty
    (cfg : config) (l : list action)
    (Hdroppable : cfg_droppable cfg = true)
    (Htarget : cfg_showDropTarget cfg = true) :
  let w := exec (run l) (construct true cfg) in
  latest click_bound (log w) =
  Some (match currentFile w with None => true | Some _ => false end).
Proof.
  intros w.
  assert (H : clickable_when_empty w).
  { apply (run_preserves _ step_clickable).
    destruct cfg as [acc [|] [|c ns] dr bo tg lim]; simpl in *; subst;
      (split; [repeat split | reflexivity]). }
  apply H.
Qed.

Lemma drop_target_clickable_iff_empty_witness :
  let l := [Drop [photo]; ReaderOnload 0 "data:"; InfoChange ""; FileSelected [photo]] in
  (cfg_droppable images_only = true /\ cfg_showDropTarget images_only = true) /\
  currentFile (exec (run l) (construct true images_only)) = Some photo /\
  latest click_bound (log (exec (run l) (construct true images_only))) = Some false.
Proof.
  intros l. split; [split; reflexivity|]. split; [reflexivity|].
  pose proof (drop_target_clickable_iff_empty images_only l eq_refl eq_refl) as H.
  cbv zeta in H. rewrite H. vm_compute. reflexivity.
Defined.

End Previews.

(** ** The richer widget: dragging, clicking, keys *)

Section Interaction.

Local Open Scope list_scope.

Lemma onDragEnterOrOver_disabled (dt : DataTransfer) (w : widget) :
  disabled w = true -> onDragEnterOrOver dt w = (Some "none"%string, drop_ignored w).
Proof.
  intros H. destruct w; simpl in *; subst. reflexivity.
Qed.

Lemma onDragEnterOrOver_enabled (dt : DataTransfer) (w : widget) :
  disabled w = false ->
  let droppable :=
    match itemOrFile dt with
    | Some t => isAllowedType (accept w) t
    | None => existsb (String.eqb "Files") (dt_types dt)
    end in
  onDragEnterOrOver dt w =
  (if droppable then None else Some "none"%string,
   set_log (log w ++ [if droppable
                      then ElementAddClass "oo-ui-selectFileWidget-canDrop"
                      else ElementRemoveClass "oo-ui-selectFileWidget-canDrop"]) w).
Proof.
  intros H droppable. subst droppable. destruct w; simpl in *; subst. reflexivity.
Qed.

(** X18.  Dragging over an enabled widget: when the drag carries no item
    but a first file [f], the handler marks the widget [canDrop] exactly
    when the type of [f] is allowed, and sets the drop effect to ['none']
    exactly when it is not; nothing but that mark changes.  The verdict
    agrees with the drop that follows: refused on the way in, the drop of
    the same files is ignored; welcomed, its first file is passed to
    [setValue].  A disabled widget refuses every drag and takes the mark
    away, and a drag that shows neither item nor file is welcomed exactly
    when its types include ['Files']. *)
Theorem drag_over_agrees_with_drop
    (w : widget) (dt : DataTransfer) (f : File) (others : list File)
    (Hon : disabled w = false)
    (Hitems : dt_items dt = [])
    (Hfiles : dt_files dt = f :: others) :
  let verdict := fst (onDragEnterOrOver dt w) in
  let hovered := exec (onDragEnterOrOver dt) w in
  (verdict = None <-> isAllowedType (accept w) (file_type f) = true) /\
  (verdict = Some "none"%string <-> isAllowedType (accept w) (file_type f) = false) /\
  hovered =
    set_log (log w ++ [if isAllowedType (accept w) (file_type f)
                       then ElementAddClass "oo-ui-selectFileWidget-canDrop"
                       else ElementRemoveClass "oo-ui-selectFileWidget-canDrop"]) w /\
  (verdict = Some "none"%string ->
     exec (onDrop (dt_files dt)) hovered = drop_ignored hovered) /\
  (verdict = None ->
     exec (onDrop (dt_files dt)) hovered = exec (setValue (Some f)) (drop_ignored hovered)) /\
  (forall dt' off, disabled off = true ->
     onDragEnterOrOver dt' off = (Some "none"%string, drop_ignored off)) /\
  (forall dt', dt_items dt' = [] -> dt_files dt' = [] ->
     (fst (onDragEnterOrOver dt' w) = None <-> In "Files"%string (dt_types dt'))).
Proof.
  intros verdict hovered. subst verdict hovered. unfold exec.
  rewrite (onDragEnterOrOver_enabled dt w Hon).
  unfold itemOrFile. rewrite Hitems, Hfiles. cbn [first_file hd_error option_map fst snd].
  set (w1 := set_log _ w).
  assert (Hd1 : disabled w1 = false) by (destruct w; exact Hon).
  assert (Ha1 : accept w1 = accept w) by (destruct w; reflexivity).
  destruct (isAllowedType (accept w) (file_type f)) eqn:E.
  - split; [split; reflexivity|]. split; [split; discriminate|].
    split; [reflexivity|]. split; [discriminate|]. split.
    + intros _. apply (f_equal snd (onDrop_selects (f :: others) f w1 Hd1
        (allowed_file_accepted _ (f :: others) f eq_refl (eq_trans (f_equal (fun a => isAllowedType a (file_type f)) Ha1) E)))).
    + split; [intros dt' off Hoff; now apply onDragEnterOrOver_disabled|].
      intros dt' Hi Hf. rewrite (onDragEnterOrOver_enabled dt' w Hon).
      unfold itemOrFile. rewrite Hi, Hf. cbn [first_file hd_error option_map fst].
      destruct (existsb (String.eqb "Files") (dt_types dt')) eqn:Ex.
      * split; [intros _|reflexivity].
        apply existsb_exists in Ex. destruct Ex as (t & Ht & Heq).
        apply String.eqb_eq in Heq. now subst.
      * split; [discriminate|]. intros Hin.
        assert (Ht : existsb (String.eqb "Files") (dt_types dt') = true)
          by (apply existsb_exists; exists "Files"%string; split;
              [exact Hin | apply String.eqb_refl]).
        congruence.
  - split; [split; discriminate|]. split; [split; reflexivity|].
    split; [reflexivity|]. split.
    + intros _. apply (f_equal snd (onDrop_nothing_allowed (f :: others) w1
        (allowed_file_rejected _ (f :: others) f eq_refl (eq_trans (f_equal (fun a => isAllowedType a (file_type f)) Ha1) E)))).
    + split; [discriminate|].
      split; [intros dt' off Hoff; now apply onDragEnterOrOver_disabled|].
      intros dt' Hi Hf. rewrite (onDragEnterOrOver_enabled dt' w Hon).
      unfold itemOrFile. rewrite Hi, Hf. cbn [first_file hd_error option_map fst].
      destruct (existsb (String.eqb "Files") (dt_types dt')) eqn:Ex.
      * split; [intros _|reflexivity].
        apply existsb_exists in Ex. destruct Ex as (t & Ht & Heq).
        apply String.eqb_eq in Heq. now subst.
      * split; [discriminate|]. intros Hin.
        assert (Ht : existsb (String.eqb "Files") (dt_types dt') = true)
          by (apply existsb_exists; exists "Files"%string; split;
              [exact Hin | apply String.eqb_refl]).
        congruence.
Qed.

Lemma drag_over_agrees_with_drop_witness :
  let w := construct true images_only in
  let dt := mkDataTransfer [] [notes; photo] ["Files"%string] in
  (disabled w = false /\ dt_items dt = [] /\ dt_files dt = [notes; photo]) /\
  fst (onDragEnterOrOver dt w) = Some "none"%string.
Proof.
  intros w dt. split; [repeat split|].
  destruct (drag_over_agrees_with_drop w dt notes [photo] eq_refl eq_refl eq_refl)
    as (_ & Hno & _).
  apply Hno. reflexivity.
Defined.

(** X19.  A disabled widget never opens the file picker: neither a key
    press on the select button nor a click on the drop target triggers a
    click on the native input, and the handlers return [undefined].  That
    holds for ever on a platform without file selection.  An enabled widget
    with its input opens the picker on space, on enter and on a click on
    the drop target, returning [false], and on no other key. *)
Theorem disabled_widget_never_opens_the_picker
    (SPACE ENTER which : Z) (input : bool) (w : widget)
    (Hoff : disabled w = true) :
  onKeyPress SPACE ENTER input which w = (([], None), w) /\
  onDropTargetClick input w = (([], None), w) /\
  (forall cfg l,
     let u := exec (run l) (construct false cfg) in
     onKeyPress SPACE ENTER input which u = (([], None), u) /\
     onDropTargetClick input u = (([], None), u)) /\
  (forall e, disabled e = false ->
     onKeyPress SPACE ENTER true SPACE e =
       (([InputTriggerClick; SelectButtonKeyUp], Some false), e) /\
     onKeyPress SPACE ENTER true ENTER e =
       (([InputTriggerClick; SelectButtonKeyUp], Some false), e) /\
     onDropTargetClick true e = (([InputTriggerClick], Some false), e) /\
     (which <> SPACE -> which <> ENTER ->
      onKeyPress SPACE ENTER true which e = (([], None), e)) /\
     onKeyPress SPACE ENTER false which e = (([], None), e) /\
     onDropTargetClick false e = (([], None), e)).
Proof.
  assert (Hgen : forall u, disabled u = true ->
            onKeyPress SPACE ENTER input which u = (([], None), u) /\
            onDropTargetClick input u = (([], None), u)).
  { intros u Hu. unfold onKeyPress, onDropTargetClick, bind, isDisabled, gets, ret.
    rewrite Hu. now split. }
  split; [apply (Hgen w Hoff)|]. split; [apply (Hgen w Hoff)|]. split.
  - intros cfg l u. apply Hgen.
    apply (run_forced_off l (construct false cfg)), construct_forced_off.
  - intros e He. unfold onKeyPress, onDropTargetClick, bind, isDisabled, gets, ret.
    rewrite He. simpl. rewrite !Z.eqb_refl, orb_true_r. simpl.
    repeat split.
    intros H1 H2. apply Z.eqb_neq in H1, H2. now rewrite H1, H2.
Qed.

Lemma disabled_widget_never_opens_the_picker_witness :
  let w := construct true images_only_disabled in
  disabled w = true /\
  fst (onKeyPress 32 13 true 32 w) = ([], None) /\
  fst (onDropTargetClick true w) = ([], None).
Proof.
  intros w. split; [reflexivity|].
  destruct (disabled_widget_never_opens_the_picker 32 13 32 true w eq_refl)
    as (Hk & Hc & _).
  split; [now rewrite Hk | now rewrite Hc].
Defined.

End Interaction.
